(** * Character context resolution (core/context.py)

    A shallow embedding of the one module of the rigging toolset that decides
    which character the other tools work on: the class [Character] with its
    cached scene references, the scene search [_load], the creation dialog
    [_create_ui] with its [submit] handler, and [Character.initialize].

    Python strings are modelled by [string]; a character is a code point
    below 256 and case mapping is the ASCII one.  The host application is an
    interface ([Host]) whose operations are the calls the module makes; a
    small reference scene graph ([RefHost]) implements it. *)

From Stdlib Require Import List String Ascii Bool Arith Lia ZArith QArith.
From Stdlib Require Import DecimalString.
Import ListNotations.

Local Close Scope Q_scope.
Local Open Scope string_scope.
Local Open Scope list_scope.
Local Open Scope nat_scope.

Set Implicit Arguments.
Set Warnings "-register-all".

(** ** Python string operations used by the module *)

Module PyStr.

Definition code (c : ascii) : nat := nat_of_ascii c.

Definition in_range (lo hi : nat) (c : ascii) : bool :=
  (lo <=? code c) && (code c <=? hi).

Definition is_upper (c : ascii) : bool := in_range 65 90 c.
Definition is_lower (c : ascii) : bool := in_range 97 122 c.
Definition is_digit (c : ascii) : bool := in_range 48 57 c.

(** [c.upper()] and [c.lower()] on one ASCII character. *)
Definition upper (c : ascii) : ascii :=
  if is_lower c then ascii_of_nat (code c - 32) else c.
Definition lower (c : ascii) : ascii :=
  if is_upper c then ascii_of_nat (code c + 32) else c.

Fixpoint map_str (f : ascii -> ascii) (s : string) : string :=
  match s with
  | EmptyString => EmptyString
  | String c s' => String (f c) (map_str f s')
  end.

(** [str.capitalize()]: the first character upper-cased, the others
    lower-cased. *)
Definition capitalize (s : string) : string :=
  match s with
  | EmptyString => EmptyString
  | String c s' => String (upper c) (map_str lower s')
  end.

(** [s.split(sep)] for a one-character separator: every occurrence cuts,
    empty pieces are kept, and the empty string gives one empty piece. *)
Fixpoint split (sep : ascii) (s : string) : list string :=
  match s with
  | EmptyString => [EmptyString]
  | String c s' =>
      if Ascii.eqb c sep then EmptyString :: split sep s'
      else match split sep s' with
           | [] => [String c EmptyString]
           | w :: ws => String c w :: ws
           end
  end.

(** [''.join(words)]. *)
Definition join (words : list string) : string :=
  fold_right String.append EmptyString words.

(** [sep.join(words)]. *)
Fixpoint join_with (sep : string) (words : list string) : string :=
  match words with
  | [] => EmptyString
  | w :: ws =>
      match ws with
      | [] => w
      | _ :: _ => (w ++ sep ++ join_with sep ws)%string
      end
  end.

(** [c in s]. *)
Fixpoint contains (c : ascii) (s : string) : bool :=
  match s with
  | EmptyString => false
  | String c' s' => Ascii.eqb c' c || contains c s'
  end.

(** The string without the occurrences of [c]. *)
Fixpoint remove (c : ascii) (s : string) : string :=
  match s with
  | EmptyString => EmptyString
  | String c' s' => if Ascii.eqb c' c then remove c s' else String c' (remove c s')
  end.

(** Every character of the string passes [p]. *)
Fixpoint forall_str (p : ascii -> bool) (s : string) : bool :=
  match s with
  | EmptyString => true
  | String c s' => p c && forall_str p s'
  end.

(** Truth value of a string: non-empty. *)
Definition truthy (s : string) : bool :=
  match s with EmptyString => false | String _ _ => true end.

(** ['...{}'.format(x)] with the placeholder last. *)
Definition format1 (prefix x : string) : string := (prefix ++ x)%string.

End PyStr.

(** ** Regular expressions, as [re.match] runs them

    A backtracking matcher in continuation style over the part of the syntax
    the two patterns of [submit] use.  A position is the number of characters
    consumed together with the characters left. *)

Module Re.

Inductive regex : Type :=
| Cls (p : ascii -> bool)        (* a character class *)
| Seq (r1 r2 : regex)
| Alt (r1 r2 : regex)
| Star (r : regex)
| Bol                            (* ^ *)
| Eol.                           (* $ *)

Definition Plus (r : regex) : regex := Seq r (Star r).

(** [$] without MULTILINE: at the end, or before a newline that ends the
    string. *)
Definition at_eol (s : list ascii) : bool :=
  match s with
  | [] => true
  | [c] => Ascii.eqb c "010"%char
  | _ => false
  end.

(** The loop of a starred group: as many rounds of [body] as the text
    allows, then the continuation; a round that consumes nothing ends the
    loop, so the length of the text bounds the rounds. *)
Fixpoint star_loop (body : nat -> list ascii -> (nat -> list ascii -> bool) -> bool)
         (k : nat -> list ascii -> bool) (fuel : nat) (pos : nat) (s : list ascii)
         {struct fuel} : bool :=
  match fuel with
  | O => k pos s
  | S fuel' =>
      body pos s
           (fun pos' s' =>
              (List.length s' <? List.length s) && star_loop body k fuel' pos' s')
      || k pos s
  end.

Fixpoint run (r : regex) (pos : nat) (s : list ascii)
         (k : nat -> list ascii -> bool) {struct r} : bool :=
  match r with
  | Cls p =>
      match s with
      | c :: s' => p c && k (S pos) s'
      | [] => false
      end
  | Seq r1 r2 => run r1 pos s (fun pos' s' => run r2 pos' s' k)
  | Alt r1 r2 => run r1 pos s k || run r2 pos s k
  | Star r1 => star_loop (run r1) k (List.length s) pos s
  | Bol => (pos =? 0) && k pos s
  | Eol => at_eol s && k pos s
  end.

(** [re.match(pattern, string)] as a truth value. *)
Definition re_match (r : regex) (s : string) : bool :=
  run r 0 (list_ascii_of_string s) (fun _ _ => true).
#[global] Arguments re_match : simpl never.

(** The classes of the two patterns. *)
Definition letter (c : ascii) : bool := PyStr.is_upper c || PyStr.is_lower c.
Definition alnum (c : ascii) : bool :=
  PyStr.is_lower c || PyStr.is_upper c || PyStr.is_digit c.

(** [\s] for a text pattern: the white space of [str.isspace] below 256. *)
Definition space (c : ascii) : bool :=
  PyStr.in_range 9 13 c || PyStr.in_range 28 32 c
  || (PyStr.code c =? 133) || (PyStr.code c =? 160).

(** The group of the name pattern: [[A-Za-z][a-zA-Z0-9]*(?:\s|$)] *)
Definition name_round : regex :=
  Seq (Cls letter) (Seq (Star (Cls alnum)) (Alt (Cls space) Eol)).

(** [^(?:[A-Za-z][a-zA-Z0-9]*(?:\s|$))+$] *)
Definition NAME_RE : regex := Seq Bol (Seq (Plus name_round) Eol).

(** [^[a-zA-Z][a-zA-Z0-9]*$] *)
Definition INITIALS_RE : regex :=
  Seq Bol (Seq (Cls letter) (Seq (Star (Cls alnum)) Eol)).

(** What a pattern can consume: from [pos] with [s] left to [pos'] with [s']
    left. *)
Inductive matches : regex -> nat -> list ascii -> nat -> list ascii -> Prop :=
| m_cls p pos c s : p c = true -> matches (Cls p) pos (c :: s) (S pos) s
| m_seq r1 r2 pos s pos1 s1 pos2 s2 :
    matches r1 pos s pos1 s1 -> matches r2 pos1 s1 pos2 s2 ->
    matches (Seq r1 r2) pos s pos2 s2
| m_alt_l r1 r2 pos s pos' s' :
    matches r1 pos s pos' s' -> matches (Alt r1 r2) pos s pos' s'
| m_alt_r r1 r2 pos s pos' s' :
    matches r2 pos s pos' s' -> matches (Alt r1 r2) pos s pos' s'
| m_star_nil r pos s : matches (Star r) pos s pos s
| m_star_step r pos s pos1 s1 pos2 s2 :
    matches r pos s pos1 s1 -> matches (Star r) pos1 s1 pos2 s2 ->
    matches (Star r) pos s pos2 s2
| m_bol s : matches Bol 0 s 0 s
| m_eol pos s : at_eol s = true -> matches Eol pos s pos s.

(** A word: a letter, then letters and digits. *)
Definition is_word (w : list ascii) : bool :=
  match w with
  | [] => false
  | c :: rest => letter c && forallb alnum rest
  end.

Definition newline : ascii := "010"%char.

(** What may follow the last word of a name: nothing, one white-space
    character, or one white-space character and a final newline. *)
Definition name_tail (t : list ascii) : Prop :=
  t = [] \/ exists c, space c = true /\ (t = [c] \/ t = [c; newline]).

(** The texts the name pattern accepts: one or more words, one white-space
    character after each word but the last, and a tail. *)
Inductive name_shape : list ascii -> Prop :=
| shape_last w t : is_word w = true -> name_tail t -> name_shape (w ++ t)
| shape_more w c rest :
    is_word w = true -> space c = true -> name_shape rest ->
    name_shape (w ++ c :: rest).

(** The texts the initials pattern accepts: one word, and at most a final
    newline after it. *)
Definition initials_shape (s : list ascii) : Prop :=
  exists w, is_word w = true /\ (s = w \/ s = w ++ [newline]).

End Re.

Definition _NAME_ATTR : string := "rigGenName".
Definition _INITIALS_ATTR : string := "rigGenInitials".
Definition _LAYOUT_SIZE_ATTR : string := "layoutSize".

(** [_camelCase]: split at the spaces, capitalize every word, concatenate. *)
Definition _camelCase (s : string) : string :=
  let words := PyStr.split " "%char s in
  PyStr.join (map PyStr.capitalize words).
Arguments _camelCase : simpl never.

(** A name made of letters, digits and spaces only. *)
Definition plain_name (n : string) : bool :=
  PyStr.forall_str (fun c => Re.alnum c || Ascii.eqb c " ") n.


(** ** What the module imports

    Modelled from the spec: the classes [MayaDagObject], [Side] and [Suffix]
    of core/maya_object.py are not among the sources.  A [MayaDagObject] is
    the cached scene-object reference the spec speaks of: it is built from a
    node name and keeps it; [object.attr(a)] pairs it with an attribute name.
    Of the two enumerations only the members the module names are listed.
    What the methods answer is left to the host interface below. *)

Record MayaDagObject : Type := MayaDagObject_ { dag_name : string }.

Record MayaAttr : Type := MayaAttr_ { attr_of : MayaDagObject; attr_name : string }.

Definition attr (object : MayaDagObject) (a : string) : MayaAttr :=
  MayaAttr_ object a.

Inductive Side : Type := CENTER.
Inductive Suffix : Type := GROUP.

(** Python values handed to [addAttr]. *)
Inductive PyValue : Type :=
| PyString (s : string)
| PyInt (z : Z).

Inductive PyExc : Type :=
| CancelledError (msg : string)
| RuntimeError (msg : string)
| AttributeError (msg : string).

Inductive Result (A : Type) : Type :=
| Return (a : A)
| Raise (e : PyExc).
Arguments Return {A} a.
Arguments Raise {A} e.

(** The two arguments of the [MItDag] constructor. *)
Inductive TraversalType : Type := kDepthFirst | kBreadthFirst.
Inductive MFnType : Type := kInvalid | kTransform | kMesh.

(** The host calls of the module.  A float attribute value is a rational. *)
Class Host (Scene MObject : Type) : Type := {
  (* cmds.ls(sl=True, tl=True, l=True) *)
  cmds_ls_sl_tl_l : Scene -> list string;
  (* cmds.group(n=name, em=True): the new scene and the name of the group *)
  cmds_group_em : Scene -> string -> Scene * string;
  (* om.MItDag(traversal, filter): the items the iterator yields, in order *)
  MItDag : Scene -> TraversalType -> MFnType -> list MObject;
  (* om.MFnDependencyNode(item).absoluteName() *)
  absoluteName : MObject -> string;
  (* MayaDagObject.exists() *)
  dag_exists : Scene -> MayaDagObject -> bool;
  (* attribute.exists(), .get_str(), .get_float() *)
  attr_exists : Scene -> MayaAttr -> bool;
  attr_get_str : Scene -> MayaAttr -> string;
  attr_get_float : Scene -> MayaAttr -> Result Q;
  (* object.addAttr(name, value=, type_=, lock=, keyable=); a keyword the
     call leaves out is None *)
  dag_addAttr : Scene -> MayaDagObject -> string -> PyValue -> string ->
                option bool -> option bool -> Scene;
  (* MayaDagObject.compose(side, name, suffix, initials=) *)
  compose : Side -> string -> Suffix -> string -> MayaDagObject
}.

(** ** The class [Character]

    Class attributes are the fields of a record; [None] is Python's None.
    [controls_grp] is not declared on the class: the first [setCharacter]
    creates it, and [None] stands for its absence before that. *)

Record Character : Type := Character_ {
  raw_name : option string;
  name : option string;
  initials : option string;
  marker_grp : option MayaDagObject;
  output_grp : option MayaDagObject;
  internals_grp : option MayaDagObject;
  geometry_grp : option MayaDagObject;
  pose_grp : option MayaDagObject;
  systems_grp : option MayaDagObject;
  bind_grp : option MayaDagObject;
  layout_control : option MayaDagObject;
  cog_control : option MayaDagObject;
  controls_grp : option MayaDagObject
}.

(** The class as its body leaves it. *)
Definition Character_class : Character :=
  Character_ None None None None None None None None None None None None None.

(** What the user does while the dialog is open. *)
Inductive UserAction : Type :=
| TypeName (tx : string)
| TypeInitials (tx : string)
| PressCreate
| PressCancel
| CloseWindow.

(** What the host has been asked to show or to build. *)
Inductive UiEvent : Type :=
| DialogShown
| ErrorReported (msg : string)
| IteratorCreated (traversal : TraversalType) (filter : MFnType).

Section ContextPy.

Context {Scene MObject : Type} {host : Host Scene MObject}.

(** The state a call works on: the scene, the class attributes, the two
    text fields of the dialog, the result a [layoutDialog(dismiss=...)]
    has set, and what the host has shown. *)
Record World : Type := World_ {
  scene : Scene;
  character : Character;
  name_field : string;
  initials_field : string;
  dismissed : option string;
  log : list UiEvent
}.

Definition with_scene (sc : Scene) (w : World) : World :=
  World_ sc (character w) (name_field w) (initials_field w) (dismissed w) (log w).
Definition with_character (c : Character) (w : World) : World :=
  World_ (scene w) c (name_field w) (initials_field w) (dismissed w) (log w).
Definition with_name_field (tx : string) (w : World) : World :=
  World_ (scene w) (character w) tx (initials_field w) (dismissed w) (log w).
Definition with_initials_field (tx : string) (w : World) : World :=
  World_ (scene w) (character w) (name_field w) tx (dismissed w) (log w).
Definition with_dismissed (d : option string) (w : World) : World :=
  World_ (scene w) (character w) (name_field w) (initials_field w) d (log w).
Definition with_event (e : UiEvent) (w : World) : World :=
  World_ (scene w) (character w) (name_field w) (initials_field w) (dismissed w)
         (log w ++ [e]).

(** State and exceptions. *)
Definition M (A : Type) : Type := World -> Result A * World.

Definition ret {A} (a : A) : M A := fun w => (Return a, w).
Definition raise {A} (e : PyExc) : M A := fun w => (Raise e, w).
Definition bind {A B} (m : M A) (f : A -> M B) : M B :=
  fun w => match m w with
           | (Return a, w') => f a w'
           | (Raise e, w') => (Raise e, w')
           end.
Definition gets {A} (f : World -> A) : M A := fun w => (Return (f w), w).
Definition modify (f : World -> World) : M unit := fun w => (Return tt, f w).

Notation "x <- c1 ;; c2" := (bind c1 (fun x => c2))
  (at level 61, c1 at next level, right associativity).
Notation "c1 ;;; c2" := (bind c1 (fun _ => c2))
  (at level 61, right associativity).

(** [Character.setCharacter], on the class attributes. *)
Definition setCharacter (initials0 name0 : string) (cls : Character) : Character :=
  let raw_name' := name0 in
  let name' := _camelCase name0 in
  let initials' := initials0 in
  Character_
    (Some raw_name')
    (Some name')
    (Some initials')
    (Some (MayaDagObject_ (name' ++ "_markers")%string))
    (Some (MayaDagObject_ name'))
    (Some (MayaDagObject_ (initials' ++ "_DO_NOT_TOUCH")%string))
    (Some (compose CENTER "Geometry" GROUP initials0))
    (Some (compose CENTER "Pose" GROUP initials0))
    (Some (compose CENTER "Systems" GROUP initials0))
    (Some (compose CENTER "Bind" GROUP initials0))
    (layout_control cls)
    (cog_control cls)
    (Some (compose CENTER "Controls" GROUP initials0)).

Definition Character_setCharacter (initials0 name0 : string) : M unit :=
  modify (fun w => with_character (setCharacter initials0 name0 (character w)) w).

(** [_try_set], the helper nested in [_load]. *)
Definition _try_set (object : string) : M bool :=
  let object := MayaDagObject_ object in
  let name_attr := attr object _NAME_ATTR in
  let initials_attr := attr object _INITIALS_ATTR in
  sc <- gets scene ;;
  if attr_exists sc name_attr && attr_exists sc initials_attr then
    Character_setCharacter (attr_get_str sc initials_attr) (attr_get_str sc name_attr) ;;;
    ret true
  else ret false.

(** The [for] loop of [_load] over the path components; the answer tells
    whether the loop returned True. *)
Fixpoint for_path (objs : list string) : M bool :=
  match objs with
  | [] => ret false
  | obj :: rest =>
      if PyStr.truthy obj then
        found <- _try_set obj ;;
        if found then ret true else for_path rest
      else for_path rest
  end.

(** The [while] loop of [_load]: [dagIt] is what the iterator has left,
    [isDone] is emptiness, [currentItem] the head, [next] the tail. *)
Fixpoint while_dag (dagIt : list MObject) : M bool :=
  match dagIt with
  | [] => ret false
  | currentItem :: next =>
      let object := absoluteName currentItem in
      found <- _try_set object ;;
      if found then ret true else while_dag next
  end.

(** [om.MItDag(traversal, filter)]: a new iterator. *)
Definition om_MItDag (traversal : TraversalType) (filter : MFnType)
  : M (list MObject) :=
  modify (with_event (IteratorCreated traversal filter)) ;;;
  gets (fun w => MItDag (scene w) traversal filter).

Definition _load : M bool :=
  active <- gets (fun w => cmds_ls_sl_tl_l (scene w)) ;;
  returned <- match active with
              | [] => ret false
              | first :: _ => for_path (PyStr.split "|"%char first)
              end ;;
  if returned then ret true
  else
    dagIt <- om_MItDag kBreadthFirst kTransform ;;
    while_dag dagIt.

(** [cmds.error(msg)]: the host shows the message and raises. *)
Definition cmds_error {A} (msg : string) : M A :=
  modify (with_event (ErrorReported msg)) ;;; raise (RuntimeError msg).

(** [cmds.layoutDialog(dismiss=result)]. *)
Definition cmds_layoutDialog_dismiss (result : string) : M unit :=
  modify (with_dismissed (Some result)).

(** [submit], the command of the Create button. *)
Definition submit : M unit :=
  name0 <- gets name_field ;;
  initials0 <- gets initials_field ;;
  if negb (PyStr.truthy name0 && Re.re_match Re.NAME_RE name0) then
    cmds_error (PyStr.format1 "Invalid character name: " name0)
  else if negb (PyStr.truthy initials0 && Re.re_match Re.INITIALS_RE initials0) then
    cmds_error (PyStr.format1 "Invalid character initials: " initials0)
  else
    Character_setCharacter initials0 name0 ;;;
    cls <- gets character ;;
    sc <- gets scene ;;
    let (sc1, grp) :=
      cmds_group_em sc (match name cls with Some n => n | None => "None" end
                        ++ "_markers")%string in
    let char_grp := MayaDagObject_ grp in
    let sc2 := dag_addAttr sc1 char_grp _NAME_ATTR (PyString name0) "string"
                           (Some true) None in
    let sc3 := dag_addAttr sc2 char_grp _INITIALS_ATTR (PyString initials0) "string"
                           (Some true) None in
    let sc4 := dag_addAttr sc3 char_grp _LAYOUT_SIZE_ATTR (PyInt 50) "float"
                           None (Some false) in
    modify (with_scene sc4) ;;;
    cmds_layoutDialog_dismiss "confirm".

(** The form [_create_ui] builds: the commands of its two buttons. *)
Record Form : Type := Form_ { b1 : M unit; b2 : M unit }.

Definition _create_ui : M Form :=
  modify (fun w => with_initials_field "" (with_name_field "" w)) ;;;
  ret (Form_ (cmds_layoutDialog_dismiss "dismiss") submit).

(** A button command run by the host: an exception it raises is reported
    and the dialog stays as the command left it. *)
Definition run_command (c : M unit) : M unit :=
  fun w => match c w with
           | (Return _, w') => (Return tt, w')
           | (Raise _, w') => (Return tt, w')
           end.

(** The modal loop: it ends with the result a command has set, and with
    'dismiss' when the user closes the window. *)
Fixpoint modal_loop (form : Form) (user : list UserAction) : M string :=
  let after (c : M unit) (rest : list UserAction) : M string :=
    run_command c ;;;
    d <- gets dismissed ;;
    match d with
    | Some result => ret result
    | None => modal_loop form rest
    end in
  match user with
  | [] => ret "dismiss"
  | TypeName tx :: rest => modify (with_name_field tx) ;;; modal_loop form rest
  | TypeInitials tx :: rest => modify (with_initials_field tx) ;;; modal_loop form rest
  | PressCreate :: rest => after (b2 form) rest
  | PressCancel :: rest => after (b1 form) rest
  | CloseWindow :: _ => ret "dismiss"
  end.

(** [cmds.layoutDialog(ui=...)], driven by what the user does. *)
Definition cmds_layoutDialog (ui : M Form) (user : list UserAction) : M string :=
  modify (fun w => with_event DialogShown (with_dismissed None w)) ;;;
  form <- ui ;;
  modal_loop form user.

(** [x and x.exists()] for a class attribute that is None or an object. *)
Definition cached_and_exists (sc : Scene) (grp : option MayaDagObject) : bool :=
  match grp with
  | None => false
  | Some g => dag_exists sc g
  end.

(** [Character.initialize]. *)
Definition Character_initialize (user : list UserAction) : M unit :=
  _load ;;;
  cls <- gets character ;;
  sc <- gets scene ;;
  if cached_and_exists sc (marker_grp cls) then ret tt
  else
    result <- cmds_layoutDialog _create_ui user ;;
    if String.eqb result "dismiss" then
      raise (CancelledError "Character creation cancelled.")
    else ret tt.

(** [Character.layout_size]. *)
Definition Character_layout_size : M Q :=
  cls <- gets character ;;
  match marker_grp cls with
  | None => raise (AttributeError "'NoneType' object has no attribute 'attr'")
  | Some grp =>
      sc <- gets scene ;;
      match attr_get_float sc (attr grp _LAYOUT_SIZE_ATTR) with
      | Return x => ret x
      | Raise e => raise e
      end
  end.

(** ** Notions the statements below use *)

(** An object, given by name, carries both character attributes. *)
Definition carries (sc : Scene) (object : string) : bool :=
  attr_exists sc (attr (MayaDagObject_ object) _NAME_ATTR)
  && attr_exists sc (attr (MayaDagObject_ object) _INITIALS_ATTR).

(** The class attributes once [setCharacter] has run on the two attribute
    values of [object]. *)
Definition set_from (sc : Scene) (object : string) (cls : Character) : Character :=
  setCharacter (attr_get_str sc (attr (MayaDagObject_ object) _INITIALS_ATTR))
               (attr_get_str sc (attr (MayaDagObject_ object) _NAME_ATTR)) cls.

(** The candidates of the first phase: the non-empty components of the first
    entry of the selection query, root first. *)
Definition path_candidates (sc : Scene) : list string :=
  match cmds_ls_sl_tl_l sc with
  | [] => []
  | first :: _ => filter PyStr.truthy (PyStr.split "|"%char first)
  end.

(** The candidates of the second phase: the transform nodes in the order of
    the breadth-first iterator, by absolute name. *)
Definition dag_candidates (sc : Scene) : list string :=
  map absoluteName (MItDag sc kBreadthFirst kTransform).

Definition candidates (sc : Scene) : list string :=
  path_candidates sc ++ dag_candidates sc.

Definition traversal_started (w : World) : World :=
  with_event (IteratorCreated kBreadthFirst kTransform) w.

Definition found_at (object : string) (w : World) : World :=
  with_character (set_from (scene w) object (character w)) w.

(** How many dialogs the host has shown. *)
Definition is_dialog_shown (e : UiEvent) : bool :=
  match e with DialogShown => true | _ => false end.

Definition dialogs_shown (w : World) : nat :=
  List.length (filter is_dialog_shown (log w)).

(** A command that shows no dialog. *)
Definition quiet {A} (c : M A) : Prop :=
  forall w, dialogs_shown (snd (c w)) = dialogs_shown w.

(** The test [submit] puts on the two text fields. *)
Definition valid_input (name0 initials0 : string) : bool :=
  (PyStr.truthy name0 && Re.re_match Re.NAME_RE name0)
  && (PyStr.truthy initials0 && Re.re_match Re.INITIALS_RE initials0).

(** The message [submit] reports for fields that fail the test. *)
Definition invalid_message (name0 initials0 : string) : string :=
  if PyStr.truthy name0 && Re.re_match Re.NAME_RE name0
  then PyStr.format1 "Invalid character initials: " initials0
  else PyStr.format1 "Invalid character name: " name0.

(** The scene with a character record for the two values: an empty group
    asked for under [group_name], then the three attributes on the group the
    host returned. *)
Definition scene_with_record (sc : Scene) (group_name name0 initials0 : string)
  : Scene :=
  let (sc1, grp) := cmds_group_em sc group_name in
  let sc2 := dag_addAttr sc1 (MayaDagObject_ grp) _NAME_ATTR (PyString name0)
                         "string" (Some true) None in
  let sc3 := dag_addAttr sc2 (MayaDagObject_ grp) _INITIALS_ATTR (PyString initials0)
                         "string" (Some true) None in
  dag_addAttr sc3 (MayaDagObject_ grp) _LAYOUT_SIZE_ATTR (PyInt 50)
              "float" None (Some false).

(** How a dialog that started in [w] can end: dismissed with scene and class
    untouched, or confirmed with the record of the two fields created and
    the class set from them. *)
Definition dialog_outcome (w : World) (result : string) (w' : World) : Prop :=
  (result = "dismiss" /\ scene w' = scene w /\ character w' = character w)
  \/ (result = "confirm"
      /\ valid_input (name_field w') (initials_field w') = true
      /\ character w' =
         setCharacter (initials_field w') (name_field w') (character w)
      /\ scene w' =
         scene_with_record (scene w)
                           (_camelCase (name_field w') ++ "_markers")%string
                           (name_field w') (initials_field w')).

(** Every scene reference the class declares is cached. *)
Definition all_references_cached (cls : Character) : Prop :=
  marker_grp cls <> None /\ output_grp cls <> None /\ internals_grp cls <> None
  /\ geometry_grp cls <> None /\ pose_grp cls <> None /\ systems_grp cls <> None
  /\ bind_grp cls <> None /\ layout_control cls <> None /\ cog_control cls <> None.

(** The references [setCharacter] assigns. *)
Definition assigned_references_cached (cls : Character) : Prop :=
  marker_grp cls <> None /\ output_grp cls <> None /\ internals_grp cls <> None
  /\ geometry_grp cls <> None /\ pose_grp cls <> None /\ systems_grp cls <> None
  /\ bind_grp cls <> None /\ controls_grp cls <> None.

End ContextPy.

Arguments World : clear implicits.
Arguments M : clear implicits.
Arguments Form : clear implicits.

(** ** A reference host

    A scene is a forest of named nodes with attributes, together with what
    the selection query answers.  Names are resolved on the short name, with
    the colon of the root namespace dropped; an operation by name acts on the
    first node of that name in depth-first order. *)

Module RefHost.

Inductive AttrData : Type :=
| DString (s : string)
| DFloat (x : Q).

Record Attribute : Type := Attribute_ {
  a_key : string;
  a_data : AttrData;
  a_lock : bool;
  a_keyable : bool
}.

Inductive Dag : Type :=
| Node (nm : string) (ty : MFnType) (ats : list Attribute) (kids : list Dag).

Record Scene : Type := Scene_ {
  world : list Dag;          (* the children of the world node *)
  active : list string       (* long names, as ls(sl, tl, l) gives them *)
}.

Definition node_name (t : Dag) : string := match t with Node nm _ _ _ => nm end.
Definition node_type (t : Dag) : MFnType := match t with Node _ ty _ _ => ty end.
Definition node_attrs (t : Dag) : list Attribute :=
  match t with Node _ _ ats _ => ats end.

(** Depth-first order: a node before its subtrees. *)
Fixpoint depth_first (t : Dag) : list Dag :=
  match t with
  | Node _ _ _ kids => t :: flat_map depth_first kids
  end.

(** Breadth-first order: the nodes level by level. *)
Fixpoint zip_app (a b : list (list Dag)) : list (list Dag) :=
  match a, b with
  | [], _ => b
  | _, [] => a
  | x :: a', y :: b' => (x ++ y) :: zip_app a' b'
  end.

Fixpoint levels (t : Dag) : list (list Dag) :=
  match t with
  | Node _ _ _ kids =>
      [t] :: fold_right (fun c acc => zip_app (levels c) acc) [] kids
  end.

Definition forest_levels (f : list Dag) : list (list Dag) :=
  fold_right (fun c acc => zip_app (levels c) acc) [] f.

Definition breadth_first (f : list Dag) : list Dag := List.concat (forest_levels f).

Definition has_type (filter : MFnType) (t : Dag) : bool :=
  match filter, node_type t with
  | kInvalid, _ => true
  | kTransform, kTransform => true
  | kMesh, kMesh => true
  | _, _ => false
  end.

Definition iterate (sc : Scene) (traversal : TraversalType) (filter : MFnType)
  : list Dag :=
  List.filter (has_type filter)
    (match traversal with
     | kDepthFirst => flat_map depth_first (world sc)
     | kBreadthFirst => breadth_first (world sc)
     end).

Definition drop_colon (n : string) : string :=
  match n with
  | String ":" n' => n'
  | _ => n
  end.

Definition resolve (sc : Scene) (n : string) : option Dag :=
  find (fun t => String.eqb (node_name t) (drop_colon n))
       (flat_map depth_first (world sc)).

Definition find_attr (t : Dag) (key : string) : option Attribute :=
  find (fun a => String.eqb (a_key a) key) (node_attrs t).

Definition lookup (sc : Scene) (a : MayaAttr) : option Attribute :=
  match resolve sc (dag_name (attr_of a)) with
  | Some t => find_attr t (attr_name a)
  | None => None
  end.

Definition ref_exists (sc : Scene) (o : MayaDagObject) : bool :=
  match resolve sc (dag_name o) with Some _ => true | None => false end.

Definition ref_attr_exists (sc : Scene) (a : MayaAttr) : bool :=
  match lookup sc a with Some _ => true | None => false end.

Definition ref_get_str (sc : Scene) (a : MayaAttr) : string :=
  match lookup sc a with
  | Some (Attribute_ _ (DString s) _ _) => s
  | _ => ""
  end.

Definition ref_get_float (sc : Scene) (a : MayaAttr) : Result Q :=
  match lookup sc a with
  | Some (Attribute_ _ (DFloat x) _ _) => Return x
  | _ => Raise (RuntimeError "No float attribute of that name")
  end.

(** The stored form of a value under a declared attribute type. *)
Definition store (v : PyValue) (type_ : string) : AttrData :=
  match v with
  | PyString s => DString s
  | PyInt z => if String.eqb type_ "float" then DFloat (inject_Z z)
               else DString ""
  end.

Definition default_false (b : option bool) : bool :=
  match b with Some x => x | None => false end.
Definition default_true (b : option bool) : bool :=
  match b with Some x => x | None => true end.

(** Change the attributes of the first node named [n], depth first; the
    flag tells whether a node was found. *)
Fixpoint update (n : string) (g : list Attribute -> list Attribute) (t : Dag)
  : Dag * bool :=
  match t with
  | Node nm ty ats kids =>
      if String.eqb nm n then (Node nm ty (g ats) kids, true)
      else
        let fix go (l : list Dag) : list Dag * bool :=
          match l with
          | [] => ([], false)
          | c :: l' =>
              let (c', done) := update n g c in
              if done then (c' :: l', true)
              else let (l'', done') := go l' in (c :: l'', done')
          end in
        let (kids', done) := go kids in
        (Node nm ty ats kids', done)
  end.

Fixpoint update_forest (n : string) (g : list Attribute -> list Attribute)
         (f : list Dag) : list Dag :=
  match f with
  | [] => []
  | c :: f' =>
      let (c', done) := update n g c in
      if done then c' :: f' else c :: update_forest n g f'
  end.

Definition ref_addAttr (sc : Scene) (o : MayaDagObject) (key : string)
           (v : PyValue) (type_ : string) (lock keyable : option bool) : Scene :=
  let a := Attribute_ key (store v type_) (default_false lock) (default_true keyable) in
  Scene_ (update_forest (drop_colon (dag_name o)) (fun ats => ats ++ [a]) (world sc))
         (active sc).

(** Node names: a character outside letters, digits and the underscore
    becomes an underscore, and a taken name gets the first free number. *)
Definition legal (c : ascii) : bool := Re.alnum c || Ascii.eqb c "_"%char.

Definition sanitize (n : string) : string :=
  PyStr.map_str (fun c => if legal c then c else "_"%char) n.

Definition decimal (k : nat) : string := NilEmpty.string_of_uint (Nat.to_uint k).

Definition taken (sc : Scene) (n : string) : bool :=
  existsb (fun t => String.eqb (node_name t) n) (flat_map depth_first (world sc)).

Definition fresh_name (sc : Scene) (base : string) : string :=
  let tries := base :: map (fun k => (base ++ decimal k)%string)
                           (seq 1 (List.length (flat_map depth_first (world sc)))) in
  match find (fun n => negb (taken sc n)) tries with
  | Some n => n
  | None => (base ++ "_")%string
  end.

(** A new empty transform under the world; it becomes the selection. *)
Definition ref_group (sc : Scene) (n : string) : Scene * string :=
  let g := fresh_name sc (sanitize n) in
  (Scene_ (world sc ++ [Node g kTransform [] []]) [("|" ++ g)%string], g).

(** Composed names: initials, side, name and suffix joined by underscores. *)
Definition ref_compose (side : Side) (n : string) (suffix : Suffix)
           (initials0 : string) : MayaDagObject :=
  MayaDagObject_
    (initials0 ++ "_" ++ match side with CENTER => "C" end ++ "_" ++ n ++ "_"
               ++ match suffix with GROUP => "GRP" end)%string.

#[export] Instance host : Host Scene Dag := {
  cmds_ls_sl_tl_l := active;
  cmds_group_em := ref_group;
  MItDag := iterate;
  absoluteName := fun t => (":" ++ node_name t)%string;
  dag_exists := ref_exists;
  attr_exists := ref_attr_exists;
  attr_get_str := ref_get_str;
  attr_get_float := ref_get_float;
  dag_addAttr := ref_addAttr;
  compose := ref_compose
}.

Definition empty_scene : Scene := Scene_ [] [].

Definition fresh_world (sc : Scene) : World Scene :=
  World_ sc Character_class "" "" None [].

(** The dialog open on [sc] with the two fields filled in. *)
Definition filled_in (sc : Scene) (cls : Character) (name0 initials0 : string)
  : World Scene :=
  World_ sc cls name0 initials0 None [].

(** A marker group as [submit] leaves it. *)
Definition record_node (grp name0 initials0 : string) : Dag :=
  Node grp kTransform
       [Attribute_ "rigGenName" (DString name0) true true;
        Attribute_ "rigGenInitials" (DString initials0) true true;
        Attribute_ "layoutSize" (DFloat (inject_Z 50)) false false]
       [].

(** Sample scenes: the default cameras; a rig whose record sits two levels
    down in the first subtree while another record is a later child of the
    world; and the same with the hand of the first rig selected. *)
Definition cameras : list Dag :=
  [Node "persp" kTransform [] [Node "perspShape" kMesh [] []];
   Node "top" kTransform [] [Node "topShape" kMesh [] []]].

Definition two_records : Scene :=
  Scene_ [Node "assets" kTransform []
               [Node "props" kTransform []
                     [Node "Deep_markers" kTransform
                           [Attribute_ "rigGenName" (DString "deep") true true;
                            Attribute_ "rigGenInitials" (DString "dp") true true]
                           [Node "hand" kTransform [] []]]];
          record_node "Shallow_markers" "shallow" "sh"]
         [].

Definition hand_selected : Scene :=
  Scene_ (world two_records) ["|assets|props|Deep_markers|hand"].

Definition only_cameras : Scene := Scene_ cameras ["|persp"].

End RefHost.


(** ** The two patterns *)

Section ReFacts.

Import Re.

(** A pattern only consumes, and what consumes nothing leaves the position. *)
Lemma matches_shrinks r pos s pos' s' :
  matches r pos s pos' s' ->
  List.length s' <= List.length s
  /\ (List.length s' = List.length s -> pos' = pos /\ s' = s).
Proof.
  induction 1 as [p pos c s Hp
                 | r1 r2 pos s pos1 s1 pos2 s2 _ [IH1 IH1'] _ [IH2 IH2']
                 | r1 r2 pos s pos' s' _ IH
                 | r1 r2 pos s pos' s' _ IH
                 | r pos s
                 | r pos s pos1 s1 pos2 s2 _ [IH1 IH1'] _ [IH2 IH2']
                 | s
                 | pos s Heol]; cbn [List.length];
    try (split; [lia | intros; split; reflexivity]); try exact IH.
  - split; [lia | intros; lia].
  - split; [lia|]. intros Hlen.
    destruct IH1' as [-> ->]; [lia|]. apply IH2'. exact Hlen.
  - split; [lia|]. intros Hlen.
    destruct IH1' as [-> ->]; [lia|]. apply IH2'. exact Hlen.
Qed.

(** The matcher finds only what the pattern can consume. *)
Lemma run_sound r : forall pos s k,
  run r pos s k = true ->
  exists pos' s', matches r pos s pos' s' /\ k pos' s' = true.
Proof.
  induction r as [p | r1 IH1 r2 IH2 | r1 IH1 r2 IH2 | r IH | |];
    intros pos s k Hrun; cbn [run] in Hrun.
  - destruct s as [|c s]; [discriminate|].
    apply andb_true_iff in Hrun. destruct Hrun as [Hp Hk].
    exists (S pos), s. split; [now constructor|exact Hk].
  - apply IH1 in Hrun. destruct Hrun as (pos1 & s1 & M1 & Hrun).
    apply IH2 in Hrun. destruct Hrun as (pos2 & s2 & M2 & Hk).
    exists pos2, s2. split; [eapply m_seq; eassumption|exact Hk].
  - apply orb_true_iff in Hrun. destruct Hrun as [Hrun|Hrun].
    + apply IH1 in Hrun. destruct Hrun as (pos' & s' & M & Hk).
      exists pos', s'. split; [now apply m_alt_l|exact Hk].
    + apply IH2 in Hrun. destruct Hrun as (pos' & s' & M & Hk).
      exists pos', s'. split; [now apply m_alt_r|exact Hk].
  - remember (List.length s) as fuel eqn:Hfuel. clear Hfuel.
    revert pos s Hrun.
    induction fuel as [|fuel IHfuel]; intros pos s Hrun; cbn [star_loop] in Hrun.
    + exists pos, s. split; [constructor|exact Hrun].
    + apply orb_true_iff in Hrun. destruct Hrun as [Hrun|Hk].
      * apply IH in Hrun. destruct Hrun as (pos1 & s1 & M1 & Hrun).
        apply andb_true_iff in Hrun. destruct Hrun as [_ Hrun].
        apply IHfuel in Hrun. destruct Hrun as (pos2 & s2 & M2 & Hk).
        exists pos2, s2. split; [eapply m_star_step; eassumption|exact Hk].
      * exists pos, s. split; [constructor|exact Hk].
  - apply andb_true_iff in Hrun. destruct Hrun as [Hpos Hk].
    apply Nat.eqb_eq in Hpos. subst pos.
    exists 0, s. split; [constructor|exact Hk].
  - apply andb_true_iff in Hrun. destruct Hrun as [Heol Hk].
    exists pos, s. split; [now constructor|exact Hk].
Qed.

(** The matcher finds all the pattern can consume; for a starred group, with
    any fuel the length of the text allows. *)
Lemma run_complete r pos s pos' s' :
  matches r pos s pos' s' ->
  forall k, k pos' s' = true ->
    run r pos s k = true
    /\ (forall r0, r = Star r0 ->
        forall fuel, List.length s <= fuel ->
                     star_loop (run r0) k fuel pos s = true).
Proof.
  induction 1 as [p pos c s Hp
                 | r1 r2 pos s pos1 s1 pos2 s2 M1 IH1 M2 IH2
                 | r1 r2 pos s pos' s' M IH
                 | r1 r2 pos s pos' s' M IH
                 | r pos s
                 | r pos s pos1 s1 pos2 s2 M1 IH1 M2 IH2
                 | s
                 | pos s Heol]; intros k Hk.
  - split; [cbn; now rewrite Hp, Hk|discriminate].
  - split; [|discriminate]. cbn [run].
    apply IH1. now apply IH2.
  - split; [|discriminate]. cbn [run].
    apply orb_true_iff. left. now apply IH.
  - split; [|discriminate]. cbn [run].
    apply orb_true_iff. right. now apply IH.
  - assert (Hgen : forall fuel, star_loop (run r) k fuel pos s = true).
    { intros [|fuel]; cbn [star_loop]; rewrite Hk; [reflexivity|apply orb_true_r]. }
    split; [apply Hgen|]. intros r0 Hr0. injection Hr0 as <-. intros fuel _. apply Hgen.
  - assert (Hgen : forall fuel, List.length s <= fuel ->
                                star_loop (run r) k fuel pos s = true).
    { intros fuel Hfuel.
      destruct (matches_shrinks M1) as [Hle Hsame].
      destruct (Nat.eq_dec (List.length s1) (List.length s)) as [Heq|Hne].
      - destruct (Hsame Heq) as [-> ->].
        now apply (proj2 (IH2 k Hk) r eq_refl).
      - destruct fuel as [|fuel]; [lia|]. cbn [star_loop].
        apply orb_true_iff. left. apply IH1.
        apply andb_true_iff. split; [apply Nat.ltb_lt; lia|].
        apply (proj2 (IH2 k Hk) r eq_refl). lia. }
    split; [cbn [run]; now apply Hgen|].
    intros r0 Hr0. injection Hr0 as <-. exact Hgen.
  - split; [cbn; exact Hk|discriminate].
  - split; [cbn; now rewrite Heol, Hk|discriminate].
Qed.

(** [re.match] succeeds exactly when the pattern can consume from the start
    of the text. *)
Lemma re_match_iff (r : regex) (s : string) :
  re_match r s = true <->
  exists pos' s', matches r 0 (list_ascii_of_string s) pos' s'.
Proof.
  unfold re_match. split.
  - intros Hrun. apply run_sound in Hrun.
    destruct Hrun as (pos' & s' & M & _). now exists pos', s'.
  - intros (pos' & s' & M). now apply (run_complete M).
Qed.

(** A starred class consumes a run of characters of the class. *)
Lemma star_cls_inv p pos s pos' s' :
  matches (Star (Cls p)) pos s pos' s' ->
  exists pre, forallb p pre = true /\ s = pre ++ s'.
Proof.
  intros M. remember (Star (Cls p)) as r eqn:Hr.
  induction M as [| | | | r pos s
                  | r pos s pos1 s1 pos2 s2 M1 _ M2 IH2 | |]; try discriminate.
  - now exists [].
  - injection Hr as ->. destruct (IH2 eq_refl) as (pre & Hpre & ->).
    inversion M1 as [p0 pos0 c s0 Hc | | | | | | |]; subst.
    exists (c :: pre). split; [cbn; now rewrite Hc, Hpre|reflexivity].
Qed.

Lemma star_cls_intro p pre t :
  forallb p pre = true ->
  forall pos, exists pos', matches (Star (Cls p)) pos (pre ++ t) pos' t.
Proof.
  induction pre as [|c pre IH]; intros Hpre pos.
  - exists pos. constructor.
  - cbn in Hpre. apply andb_true_iff in Hpre. destruct Hpre as [Hc Hpre].
    destruct (IH Hpre (S pos)) as [pos' M].
    exists pos'. eapply m_star_step; [|exact M]. now constructor.
Qed.

(** A word followed by [x]. *)
Lemma word_then_inv x pos s pos' s' :
  matches (Seq (Cls letter) (Seq (Star (Cls alnum)) x)) pos s pos' s' ->
  exists w t pos1, is_word w = true /\ s = w ++ t /\ matches x pos1 t pos' s'.
Proof.
  intros M.
  inversion M as [| r1 r2 pos0 s0 pos1 s1 pos2 s2 Mc Mrest | | | | | |]; subst.
  inversion Mc as [p0 pos0 c s0 Hc | | | | | | |]; subst.
  inversion Mrest as [| r1 r2 pos0 s0 pos2 s2 pos3 s3 Mstar Mx | | | | | |]; subst.
  apply star_cls_inv in Mstar. destruct Mstar as (pre & Hpre & ->).
  exists (c :: pre), s2, pos2. split; [cbn; now rewrite Hc, Hpre|].
  split; [reflexivity|exact Mx].
Qed.

Lemma word_then_intro x w t s' :
  is_word w = true ->
  (forall pos1, exists pos', matches x pos1 t pos' s') ->
  forall pos, exists pos',
    matches (Seq (Cls letter) (Seq (Star (Cls alnum)) x)) pos (w ++ t) pos' s'.
Proof.
  intros Hw Hx pos. destruct w as [|c pre]; [discriminate|].
  cbn in Hw. apply andb_true_iff in Hw. destruct Hw as [Hc Hpre].
  destruct (star_cls_intro alnum pre t Hpre (S pos)) as [pos1 Mstar].
  destruct (Hx pos1) as [pos' Mx].
  exists pos'. cbn [app].
  eapply m_seq; [now constructor|]. eapply m_seq; eassumption.
Qed.

Lemma at_eol_cases (s : list ascii) :
  at_eol s = true <-> s = [] \/ s = [newline].
Proof.
  destruct s as [|c [|c' s]]; cbn; split; intros H.
  - now left.
  - reflexivity.
  - right. apply Ascii.eqb_eq in H. now subst c.
  - destruct H as [H|H]; [discriminate|]. injection H as ->. reflexivity.
  - discriminate.
  - destruct H as [H|H]; discriminate.
Qed.

Lemma name_round_inv pos s pos' s' :
  matches name_round pos s pos' s' ->
  exists w, is_word w = true
            /\ ((exists c, space c = true /\ s = w ++ c :: s')
                \/ (s = w ++ s' /\ at_eol s' = true)).
Proof.
  intros M. apply word_then_inv in M. destruct M as (w & t & pos1 & Hw & -> & Mx).
  exists w. split; [exact Hw|].
  inversion Mx as [| | r1 r2 pos0 s0 pos2 s2 Mc | r1 r2 pos0 s0 pos2 s2 Me | | | |];
    subst.
  - inversion Mc as [p0 pos0 c s0 Hc | | | | | | |]; subst.
    left. now exists c.
  - inversion Me as [| | | | | | | pos0 s0 Heol]; subst.
    right. now split.
Qed.

Lemma name_round_space w c s' :
  is_word w = true -> space c = true ->
  forall pos, exists pos', matches name_round pos (w ++ c :: s') pos' s'.
Proof.
  intros Hw Hc. apply word_then_intro; [exact Hw|].
  intros pos1. exists (S pos1). apply m_alt_l. now constructor.
Qed.

Lemma name_round_eol w s' :
  is_word w = true -> at_eol s' = true ->
  forall pos, exists pos', matches name_round pos (w ++ s') pos' s'.
Proof.
  intros Hw Heol. apply word_then_intro; [exact Hw|].
  intros pos1. exists pos1. apply m_alt_r. now constructor.
Qed.

(** A name of the shape starts with a letter. *)
Lemma name_shape_head s :
  name_shape s -> exists c rest, s = c :: rest /\ letter c = true.
Proof.
  assert (Hword : forall w t, is_word w = true ->
                              exists c rest, w ++ t = c :: rest /\ letter c = true).
  { intros [|c pre] t Hw; [discriminate|]. cbn in Hw.
    apply andb_true_iff in Hw. exists c, (pre ++ t). now split. }
  intros [w t Hw _|w c rest Hw _ _]; now apply Hword.
Qed.

Lemma name_shape_not_eol s : name_shape s -> at_eol s = false.
Proof.
  intros Hs. apply name_shape_head in Hs. destruct Hs as (c & rest & -> & Hc).
  destruct rest as [|c' rest]; [|reflexivity]. cbn.
  destruct (Ascii.eqb c "010") eqn:Heq; [|reflexivity].
  apply Ascii.eqb_eq in Heq. subst c. discriminate.
Qed.

(** A round before the rest of a name, or before the end. *)
Lemma name_round_shape pos s pos1 s1 s' :
  matches name_round pos s pos1 s1 ->
  s1 = s' \/ name_shape s1 -> at_eol s' = true -> name_shape s.
Proof.
  intros M Hrest Heol. apply name_round_inv in M.
  destruct M as (w & Hw & [(c & Hc & ->)|[-> Heol1]]).
  - destruct Hrest as [->|Hshape]; [|now apply shape_more].
    apply shape_last; [exact Hw|]. right. exists c. split; [exact Hc|].
    apply at_eol_cases in Heol. destruct Heol as [->| ->]; [now left|now right].
  - destruct Hrest as [->|Hshape].
    + apply shape_last; [exact Hw|].
      apply at_eol_cases in Heol. destruct Heol as [->| ->]; [now left|].
      right. exists newline. split; [reflexivity|now left].
    + apply name_shape_not_eol in Hshape. congruence.
Qed.

Lemma name_rounds_shape pos s pos' s' :
  matches (Star name_round) pos s pos' s' -> at_eol s' = true ->
  s = s' \/ name_shape s.
Proof.
  intros M Heol. remember (Star name_round) as r eqn:Hr.
  induction M as [| | | | r pos s
                  | r pos s pos1 s1 pos2 s2 M1 _ M2 IH2 | |]; try discriminate.
  - now left.
  - injection Hr as ->. right.
    eapply name_round_shape; [exact M1| |exact Heol]. now apply IH2.
Qed.

(** The name pattern accepts exactly the texts of the name shape. *)
Lemma name_pattern_shape (s : string) :
  re_match NAME_RE s = true <-> name_shape (list_ascii_of_string s).
Proof.
  rewrite re_match_iff. generalize (list_ascii_of_string s) as l. clear s.
  intros l. split.
  - intros (pos' & s' & M). unfold NAME_RE, Plus in M.
    inversion M as [| r1 r2 pos0 s0 pos1 s1 pos2 s2 Mb Mrest | | | | | |]; subst.
    inversion Mb; subst.
    inversion Mrest as [| r1 r2 pos0 s0 pos2 s2 pos3 s3 Mplus Me | | | | | |]; subst.
    inversion Me as [| | | | | | | pos0 s0 Heol]; subst.
    inversion Mplus as [| r1 r2 pos0 s0 pos3 s3 pos4 s4 M1 Mstar | | | | | |]; subst.
    eapply name_round_shape; [exact M1| |exact Heol].
    eapply name_rounds_shape; eassumption.
  - intros Hshape.
    assert (Hplus : forall pos, exists pos' s',
               matches (Plus name_round) pos l pos' s' /\ at_eol s' = true).
    { induction Hshape as [w t Hw Htail|w c rest Hw Hc Hrest IH]; intros pos.
      - destruct Htail as [->|(c & Hc & [->| ->])].
        + destruct (name_round_eol w [] Hw eq_refl pos) as [pos' M].
          exists pos', []. split; [|reflexivity].
          eapply m_seq; [exact M|constructor].
        + destruct (name_round_space w c [] Hw Hc pos) as [pos' M].
          exists pos', []. split; [|reflexivity].
          eapply m_seq; [exact M|constructor].
        + destruct (name_round_space w c [newline] Hw Hc pos) as [pos' M].
          exists pos', [newline]. split; [|reflexivity].
          eapply m_seq; [exact M|constructor].
      - destruct (name_round_space w c rest Hw Hc pos) as [pos1 M].
        destruct (IH pos1) as (pos' & s' & Mplus & Heol).
        exists pos', s'. split; [|exact Heol].
        unfold Plus in Mplus.
        inversion Mplus as [| r1 r2 pos0 s0 pos3 s3 pos4 s4 M1 Mstar | | | | | |];
          subst.
        eapply m_seq; [exact M|]. eapply m_star_step; eassumption. }
    destruct (Hplus 0) as (pos' & s' & Mplus & Heol).
    exists pos', s'. unfold NAME_RE.
    eapply m_seq; [constructor|]. eapply m_seq; [exact Mplus|now constructor].
Qed.

(** The initials pattern accepts exactly the texts of the initials shape. *)
Lemma initials_pattern_shape (s : string) :
  re_match INITIALS_RE s = true <-> initials_shape (list_ascii_of_string s).
Proof.
  rewrite re_match_iff. generalize (list_ascii_of_string s) as l. clear s.
  intros l. unfold initials_shape. split.
  - intros (pos' & s' & M). unfold INITIALS_RE in M.
    inversion M as [| r1 r2 pos0 s0 pos1 s1 pos2 s2 Mb Mrest | | | | | |]; subst.
    inversion Mb; subst.
    apply word_then_inv in Mrest. destruct Mrest as (w & t & pos1 & Hw & -> & Me).
    inversion Me as [| | | | | | | pos0 s0 Heol]; subst.
    exists w. split; [exact Hw|].
    apply at_eol_cases in Heol. destruct Heol as [->| ->].
    + left. now rewrite app_nil_r.
    + now right.
  - intros (w & Hw & Hl).
    assert (Ht : exists t, l = w ++ t /\ at_eol t = true).
    { destruct Hl as [->| ->]; [exists []|exists [newline]]; split;
        try reflexivity. now rewrite app_nil_r. }
    destruct Ht as (t & -> & Heol).
    destruct (@word_then_intro Eol w t t Hw) with (pos := 0) as [pos' M].
    { intros pos1. exists pos1. now constructor. }
    exists pos', t. unfold INITIALS_RE.
    eapply m_seq; [constructor|exact M].
Qed.

End ReFacts.

(** ** The scene search *)

Section SearchFacts.

Context {Scene MObject : Type} {host : Host Scene MObject}.

Lemma _try_set_eq (object : string) (w : World Scene) :
  _try_set object w =
  if carries (scene w) object then (Return true, found_at object w)
  else (Return false, w).
Proof.
  unfold _try_set, carries, bind, gets. cbn.
  destruct (attr_exists _ _ && attr_exists _ _); reflexivity.
Qed.

Lemma for_path_eq (objs : list string) (w : World Scene) :
  for_path objs w =
  match find (carries (scene w)) (filter PyStr.truthy objs) with
  | Some object => (Return true, found_at object w)
  | None => (Return false, w)
  end.
Proof.
  induction objs as [|obj rest IH]; cbn [for_path filter].
  - reflexivity.
  - destruct (PyStr.truthy obj); [|exact IH].
    cbn [find]. unfold bind. rewrite _try_set_eq.
    destruct (carries (scene w) obj); [reflexivity|exact IH].
Qed.

Lemma while_dag_eq (dagIt : list MObject) (w : World Scene) :
  while_dag dagIt w =
  match find (carries (scene w)) (map absoluteName dagIt) with
  | Some object => (Return true, found_at object w)
  | None => (Return false, w)
  end.
Proof.
  induction dagIt as [|item next IH]; cbn [while_dag map find].
  - reflexivity.
  - unfold bind. rewrite _try_set_eq.
    destruct (carries (scene w) (absoluteName item)); [reflexivity|exact IH].
Qed.

(** [_load] as a search for the first candidate carrying both attributes. *)
Lemma _load_eq (w : World Scene) :
  _load w =
  match find (carries (scene w)) (path_candidates (scene w)) with
  | Some object => (Return true, found_at object w)
  | None =>
      match find (carries (scene w)) (dag_candidates (scene w)) with
      | Some object => (Return true, found_at object (traversal_started w))
      | None => (Return false, traversal_started w)
      end
  end.
Proof.
  unfold _load, path_candidates, dag_candidates, bind, gets. cbn.
  assert (Hdag : forall w0 : World Scene, scene w0 = scene w ->
            (let (r, w') := om_MItDag kBreadthFirst kTransform w0 in
             match r with
             | Return a => while_dag a w'
             | Raise e => (Raise e, w')
             end) =
            match find (carries (scene w))
                       (map absoluteName (MItDag (scene w) kBreadthFirst kTransform)) with
            | Some object => (Return true, found_at object (traversal_started w0))
            | None => (Return false, traversal_started w0)
            end).
  { intros w0 H0. unfold om_MItDag, bind, modify, gets. cbn.
    rewrite while_dag_eq. cbn. rewrite H0. reflexivity. }
  destruct (cmds_ls_sl_tl_l (scene w)) as [|first others].
  - cbn. apply Hdag. reflexivity.
  - rewrite for_path_eq.
    destruct (find _ (filter _ _)); [reflexivity|].
    apply Hdag. reflexivity.
Qed.

Lemma find_first {A} (f : A -> bool) (before : list A) (x : A) (after : list A) :
  (forall o, In o before -> f o = false) -> f x = true ->
  find f (before ++ x :: after) = Some x.
Proof.
  induction before as [|b before IH]; intros Hb Hx; cbn.
  - now rewrite Hx.
  - rewrite (Hb b (or_introl eq_refl)). apply IH; [|exact Hx].
    intros o Ho. apply Hb. now right.
Qed.

Lemma find_all_false {A} (f : A -> bool) (l : list A) :
  (forall o, In o l -> f o = false) -> find f l = None.
Proof.
  induction l as [|b l IH]; intros Hl; cbn; [reflexivity|].
  rewrite (Hl b (or_introl eq_refl)). apply IH. intros o Ho. apply Hl. now right.
Qed.

Lemma find_app_none {A} (f : A -> bool) (l1 l2 : list A) :
  find f l1 = None -> find f (l1 ++ l2) = find f l2.
Proof.
  induction l1 as [|b l1 IH]; cbn; [reflexivity|].
  destruct (f b); [discriminate|exact IH].
Qed.

(** The search over both phases is one search over the candidates in order. *)
Lemma _load_find (w : World Scene) :
  match find (carries (scene w)) (candidates (scene w)) with
  | Some object =>
      fst (_load w) = Return true
      /\ character (snd (_load w)) = set_from (scene w) object (character w)
  | None => fst (_load w) = Return false /\ character (snd (_load w)) = character w
  end.
Proof.
  rewrite _load_eq. unfold candidates.
  destruct (find (carries (scene w)) (path_candidates (scene w))) as [o|] eqn:Hp.
  - assert (H : find (carries (scene w))
                     (path_candidates (scene w) ++ dag_candidates (scene w)) = Some o).
    { clear - Hp. induction (path_candidates (scene w)) as [|b l IH]; cbn in *.
      - discriminate.
      - destruct (carries (scene w) b); [exact Hp|auto]. }
    rewrite H. split; reflexivity.
  - rewrite find_app_none by exact Hp.
    destruct (find (carries (scene w)) (dag_candidates (scene w))); split; reflexivity.
Qed.

(** C2: [_load] returns True exactly when some candidate object, a non-empty
    component of the path that heads the answer of the selection query or a
    transform node the iterator yields, carries both rigGenName and
    rigGenInitials; it never raises; and when it returns True the class
    attributes are those [setCharacter] leaves for the two attribute values of
    such a candidate. *)
Theorem load_true_iff_candidate_carries (w : World Scene) :
  (fst (_load w) = Return true \/ fst (_load w) = Return false)
  /\ (fst (_load w) = Return true <->
      exists object, In object (candidates (scene w))
                     /\ carries (scene w) object = true)
  /\ (fst (_load w) = Return true ->
      exists object,
        In object (candidates (scene w)) /\ carries (scene w) object = true
        /\ character (snd (_load w)) =
           setCharacter
             (attr_get_str (scene w) (attr (MayaDagObject_ object) _INITIALS_ATTR))
             (attr_get_str (scene w) (attr (MayaDagObject_ object) _NAME_ATTR))
             (character w)).
Proof.
  pose proof (_load_find w) as H.
  destruct (find (carries (scene w)) (candidates (scene w))) as [o|] eqn:Hf.
  - destruct H as [Hr Hc]. apply find_some in Hf. destruct Hf as [Hin Hcar].
    split; [now left|]. split.
    + split; [intros _; now exists o | intros _; exact Hr].
    + intros _. exists o. repeat split; assumption.
  - destruct H as [Hr _]. split; [now right|]. split.
    + split.
      * rewrite Hr. discriminate.
      * intros [o [Hin Hcar]].
        pose proof (find_none _ _ Hf o Hin) as Hno. congruence.
    + rewrite Hr. discriminate.
Qed.

(** C3: the order of the search.  If some non-empty component of the path
    that heads the answer of the selection query carries both attributes, the
    first one from the root decides, and no iterator is created.  If none
    does, one breadth-first iterator over the transform nodes is created and
    the first node it yields that carries both attributes decides.  If no
    node does either, [_load] returns False. *)
Theorem load_search_order (w : World Scene) :
  (forall before object after,
      path_candidates (scene w) = before ++ object :: after ->
      (forall o, In o before -> carries (scene w) o = false) ->
      carries (scene w) object = true ->
      _load w = (Return true, found_at object w))
  /\ ((forall o, In o (path_candidates (scene w)) -> carries (scene w) o = false) ->
      (forall before object after,
          dag_candidates (scene w) = before ++ object :: after ->
          (forall o, In o before -> carries (scene w) o = false) ->
          carries (scene w) object = true ->
          _load w = (Return true, found_at object (traversal_started w)))
      /\ ((forall o, In o (dag_candidates (scene w)) -> carries (scene w) o = false) ->
          _load w = (Return false, traversal_started w))).
Proof.
  split.
  - intros before object after Hsplit Hbefore Hobj.
    rewrite _load_eq, Hsplit, find_first by assumption. reflexivity.
  - intros Hpath. split.
    + intros before object after Hsplit Hbefore Hobj.
      rewrite _load_eq, find_all_false, Hsplit, find_first by assumption.
      reflexivity.
    + intros Hdag.
      rewrite _load_eq, !find_all_false by assumption.
      reflexivity.
Qed.

(** C9: when [_load] returns False every class attribute is what it was
    before the call, and so is the scene. *)
Theorem load_false_keeps_character (w : World Scene) :
  fst (_load w) = Return false ->
  character (snd (_load w)) = character w /\ scene (snd (_load w)) = scene w.
Proof.
  intros Hfalse. pose proof (_load_find w) as H.
  destruct (find (carries (scene w)) (candidates (scene w))) as [o|].
  - destruct H as [Hr _]. congruence.
  - destruct H as [_ Hc]. split; [exact Hc|].
    rewrite _load_eq.
    destruct (find _ (path_candidates _)); [reflexivity|].
    destruct (find _ (dag_candidates _)); reflexivity.
Qed.

End SearchFacts.

(** ** The dialog and [Character.initialize] *)

Section DialogFacts.

Context {Scene MObject : Type} {host : Host Scene MObject}.

(** The world a successful [submit] leaves. *)
Lemma submit_eq (w : World Scene) :
  submit w =
  if valid_input (name_field w) (initials_field w) then
    (Return tt,
     World_ (scene_with_record (scene w)
                               (_camelCase (name_field w) ++ "_markers")%string
                               (name_field w) (initials_field w))
            (setCharacter (initials_field w) (name_field w) (character w))
            (name_field w) (initials_field w) (Some "confirm") (log w))
  else
    (Raise (RuntimeError (invalid_message (name_field w) (initials_field w))),
     with_event (ErrorReported (invalid_message (name_field w) (initials_field w))) w).
Proof.
  unfold submit, valid_input, invalid_message, bind, gets. cbn.
  destruct (PyStr.truthy (name_field w) && Re.re_match Re.NAME_RE (name_field w));
    cbn; [|reflexivity].
  destruct (PyStr.truthy (initials_field w)
            && Re.re_match Re.INITIALS_RE (initials_field w)); cbn; [|reflexivity].
  unfold scene_with_record.
  destruct (cmds_group_em (scene w) (_camelCase (name_field w) ++ "_markers")%string)
    as [sc1 grp].
  reflexivity.
Qed.

Lemma dialogs_shown_event (e : UiEvent) (w : World Scene) :
  dialogs_shown (with_event e w) =
  dialogs_shown w + (if is_dialog_shown e then 1 else 0).
Proof.
  unfold dialogs_shown, with_event. cbn.
  rewrite filter_app, length_app. cbn. destruct (is_dialog_shown e); reflexivity.
Qed.

Lemma submit_quiet : quiet submit.
Proof.
  intros w. rewrite submit_eq.
  destruct (valid_input _ _); cbn [snd].
  - reflexivity.
  - rewrite dialogs_shown_event. cbn. lia.
Qed.

Lemma dismiss_quiet (result : string) :
  quiet (cmds_layoutDialog_dismiss (Scene:=Scene) result).
Proof. intros w. reflexivity. Qed.

(** The modal loop ends with a result and shows no further dialog. *)
Lemma modal_loop_returns (form : Form Scene) (user : list UserAction) :
  quiet (b1 form) -> quiet (b2 form) ->
  forall w : World Scene, exists result w',
    modal_loop form user w = (Return result, w')
    /\ dialogs_shown w' = dialogs_shown w.
Proof.
  intros Hb1 Hb2.
  assert (Hafter : forall (c : M Scene unit) rest,
             quiet c ->
             (forall w, exists result w',
                 modal_loop form rest w = (Return result, w')
                 /\ dialogs_shown w' = dialogs_shown w) ->
             forall w, exists result w',
               bind (run_command c)
                    (fun _ => bind (gets (@dismissed Scene))
                                   (fun d => match d with
                                             | Some result => ret result
                                             | None => modal_loop form rest
                                             end)) w = (Return result, w')
               /\ dialogs_shown w' = dialogs_shown w).
  { intros c rest Hc IH w. unfold bind, run_command, gets, ret.
    specialize (Hc w). destruct (c w) as [[u|e] w1]; cbn in Hc |- *.
    - destruct (dismissed w1) as [r|].
      + exists r, w1. split; [reflexivity|exact Hc].
      + destruct (IH w1) as [r [w' [Heq Hn]]]. exists r, w'.
        split; [exact Heq|congruence].
    - destruct (dismissed w1) as [r|].
      + exists r, w1. split; [reflexivity|exact Hc].
      + destruct (IH w1) as [r [w' [Heq Hn]]]. exists r, w'.
        split; [exact Heq|congruence]. }
  induction user as [|a rest IH]; intros w.
  - exists "dismiss", w. split; reflexivity.
  - destruct a; cbn [modal_loop].
    + unfold bind, modify.
      destruct (IH (with_name_field tx w)) as [r [w' [Heq Hn]]].
      exists r, w'. split; [exact Heq|exact Hn].
    + unfold bind, modify.
      destruct (IH (with_initials_field tx w)) as [r [w' [Heq Hn]]].
      exists r, w'. split; [exact Heq|exact Hn].
    + apply Hafter; assumption.
    + apply Hafter; assumption.
    + exists "dismiss", w. split; reflexivity.
Qed.

(** The dialog of the module ends with a result, and one dialog more has
    been shown. *)
Lemma layoutDialog_returns (user : list UserAction) (w : World Scene) :
  exists result w',
    cmds_layoutDialog _create_ui user w = (Return result, w')
    /\ dialogs_shown w' = S (dialogs_shown w).
Proof.
  unfold cmds_layoutDialog, _create_ui, bind, modify, ret. cbn.
  match goal with
  | |- context [modal_loop ?f user ?w0] =>
      destruct (@modal_loop_returns f user (dismiss_quiet "dismiss") submit_quiet w0)
        as [r [w' [Heq Hn]]]
  end.
  exists r, w'. split; [exact Heq|].
  rewrite Hn. unfold dialogs_shown. cbn.
  rewrite filter_app, length_app. cbn. lia.
Qed.

Lemma _load_returns (w : World Scene) :
  exists found, _load w = (Return found, snd (_load w))
                /\ scene (snd (_load w)) = scene w
                /\ dialogs_shown (snd (_load w)) = dialogs_shown w.
Proof.
  rewrite _load_eq.
  destruct (find _ (path_candidates _)).
  - exists true. repeat split.
  - destruct (find _ (dag_candidates _)).
    + exists true. repeat split. cbn [snd].
      unfold found_at, traversal_started, dialogs_shown. cbn.
      rewrite filter_app, length_app. cbn. lia.
    + exists false. repeat split. cbn [snd].
      unfold traversal_started. rewrite dialogs_shown_event. cbn. lia.
Qed.

(** [Character.initialize] by cases on the test after [_load]. *)
Lemma initialize_eq (user : list UserAction) (w : World Scene) :
  Character_initialize user w =
  let w1 := snd (_load w) in
  if cached_and_exists (scene w1) (marker_grp (character w1)) then (Return tt, w1)
  else
    match cmds_layoutDialog _create_ui user w1 with
    | (Return result, w2) =>
        if String.eqb result "dismiss"
        then (Raise (CancelledError "Character creation cancelled."), w2)
        else (Return tt, w2)
    | (Raise e, w2) => (Raise e, w2)
    end.
Proof.
  destruct (_load_returns w) as [found [Heq _]].
  unfold Character_initialize, bind at 1.
  destruct (_load w) as [r w1]. cbn [snd] in *.
  injection Heq as ->. cbv zeta.
  unfold bind, gets. cbv beta iota.
  destruct (cached_and_exists _ _); [reflexivity|].
  destruct (cmds_layoutDialog _create_ui user w1) as [[result|e] w2];
    [|reflexivity].
  unfold raise, ret. destruct (String.eqb result "dismiss"); reflexivity.
Qed.

(** C1: [Character.initialize] runs [_load] first and tests the marker group
    on the state [_load] leaves.  With a cached marker group that exists it
    returns in that state and no dialog is shown; otherwise, that is when the
    marker group is None or its [exists()] is false, exactly one dialog is
    shown. *)
Theorem initialize_prompts_only_without_marker
        (user : list UserAction) (w : World Scene) :
  let w1 := snd (_load w) in
  let cached := cached_and_exists (scene w1) (marker_grp (character w1)) in
  (cached = true ->
   Character_initialize user w = (Return tt, w1)
   /\ dialogs_shown (snd (Character_initialize user w)) = dialogs_shown w)
  /\ (cached = false ->
      dialogs_shown (snd (Character_initialize user w)) = S (dialogs_shown w))
  /\ (cached = false <->
      marker_grp (character w1) = None
      \/ exists grp, marker_grp (character w1) = Some grp
                     /\ dag_exists (scene w1) grp = false).
Proof.
  intros w1 cached.
  destruct (_load_returns w) as [found [_ [_ Hshown]]]. fold w1 in Hshown.
  pose proof (initialize_eq user w) as Hinit. cbv zeta in Hinit.
  fold w1 in Hinit. fold cached in Hinit.
  split; [|split].
  - intros Hc. rewrite Hc in Hinit. rewrite Hinit. split; [reflexivity|exact Hshown].
  - intros Hc. rewrite Hc in Hinit. rewrite Hinit.
    destruct (layoutDialog_returns user w1) as [result [w2 [Heq Hn]]].
    rewrite Heq. destruct (String.eqb result "dismiss"); cbn [snd]; congruence.
  - subst cached. unfold cached_and_exists.
    destruct (marker_grp (character w1)) as [grp|].
    + split.
      * intros Hex. right. exists grp. split; [reflexivity|exact Hex].
      * intros [Hnone|[g [Hg Hex]]]; [discriminate|]. now injection Hg as ->.
    + split; [intros _; now left|reflexivity].
Qed.

(** C6: [Character.initialize] raises CancelledError exactly when the dialog
    is shown and its result is 'dismiss'.  When the marker group is cached
    and exists it returns normally without a dialog; when the dialog ends
    with another result it returns normally. *)
Theorem initialize_raises_iff_dismissed
        (user : list UserAction) (w : World Scene) :
  let w1 := snd (_load w) in
  let cached := cached_and_exists (scene w1) (marker_grp (character w1)) in
  (cached = true -> Character_initialize user w = (Return tt, w1))
  /\ (cached = false ->
      exists result w2,
        cmds_layoutDialog _create_ui user w1 = (Return result, w2)
        /\ (result = "dismiss" ->
            Character_initialize user w =
            (Raise (CancelledError "Character creation cancelled."), w2))
        /\ (result <> "dismiss" -> Character_initialize user w = (Return tt, w2)))
  /\ ((exists msg, fst (Character_initialize user w) = Raise (CancelledError msg))
      <-> cached = false
          /\ fst (cmds_layoutDialog _create_ui user w1) = Return "dismiss").
Proof.
  intros w1 cached.
  pose proof (initialize_eq user w) as Hinit. cbv zeta in Hinit.
  fold w1 in Hinit. fold cached in Hinit.
  destruct (layoutDialog_returns user w1) as [result [w2 [Heq _]]].
  rewrite Heq in Hinit. rewrite Heq. cbn [fst].
  destruct cached.
  - split; [intros _; exact Hinit|]. split; [discriminate|].
    rewrite Hinit. cbn [fst]. split.
    + intros [msg Hmsg]. discriminate.
    + intros [Hfalse _]. discriminate.
  - split; [discriminate|]. split.
    + intros _. exists result, w2. split; [reflexivity|]. split.
      * intros ->. exact Hinit.
      * intros Hne. apply String.eqb_neq in Hne. now rewrite Hne in Hinit.
    + rewrite Hinit. destruct (String.eqb result "dismiss") eqn:Hres; cbn [fst].
      * apply String.eqb_eq in Hres. subst result. split.
        -- intros _. split; reflexivity.
        -- intros _. now exists "Character creation cancelled.".
      * apply String.eqb_neq in Hres. split.
        -- intros [msg Hmsg]. discriminate.
        -- intros [_ Hd]. congruence.
Qed.

(** C7: [submit] creates the character record exactly when both text fields
    pass the test: each is non-empty and matches its pattern.  On fields that
    fail it reports an error and raises, and neither the scene nor a class
    attribute changes.  On fields that pass it sets the character, asks the
    host for an empty group under the camel-cased name followed by
    '_markers', adds to the group the host returned the locked string
    attributes rigGenName and rigGenInitials with the two field values and
    the float attribute layoutSize with value 50, and dismisses the dialog
    with 'confirm'. *)
Theorem submit_creates_record_iff_valid (w : World Scene) :
  let name0 := name_field w in
  let initials0 := initials_field w in
  (valid_input name0 initials0 = true <->
   (name0 <> "" /\ Re.re_match Re.NAME_RE name0 = true)
   /\ (initials0 <> "" /\ Re.re_match Re.INITIALS_RE initials0 = true))
  /\ (valid_input name0 initials0 = true <->
      Re.name_shape (list_ascii_of_string name0)
      /\ Re.initials_shape (list_ascii_of_string initials0))
  /\ (valid_input name0 initials0 = true <-> fst (submit w) = Return tt)
  /\ (valid_input name0 initials0 = false ->
      exists msg,
        submit w = (Raise (RuntimeError msg), with_event (ErrorReported msg) w)
        /\ scene (snd (submit w)) = scene w
        /\ character (snd (submit w)) = character w
        /\ dismissed (snd (submit w)) = dismissed w)
  /\ (valid_input name0 initials0 = true ->
      let (sc1, grp) :=
        cmds_group_em (scene w) (_camelCase name0 ++ "_markers")%string in
      let char_grp := MayaDagObject_ grp in
      character (snd (submit w)) = setCharacter initials0 name0 (character w)
      /\ scene (snd (submit w)) =
         dag_addAttr
           (dag_addAttr
              (dag_addAttr sc1 char_grp "rigGenName" (PyString name0) "string"
                           (Some true) None)
              char_grp "rigGenInitials" (PyString initials0) "string"
              (Some true) None)
           char_grp "layoutSize" (PyInt 50) "float" None (Some false)
      /\ dismissed (snd (submit w)) = Some "confirm"
      /\ log (snd (submit w)) = log w).
Proof.
  intros name0 initials0.
  pose proof (submit_eq w) as Hsub. fold name0 in Hsub. fold initials0 in Hsub.
  assert (Htruthy : forall s, PyStr.truthy s = true <-> s <> "").
  { intros [|c s]; cbn; split; congruence. }
  assert (Hvalid : valid_input name0 initials0 = true <->
                   (name0 <> "" /\ Re.re_match Re.NAME_RE name0 = true)
                   /\ (initials0 <> "" /\ Re.re_match Re.INITIALS_RE initials0 = true)).
  { unfold valid_input. rewrite !andb_true_iff, !Htruthy. tauto. }
  split; [exact Hvalid|]. split; [|split; [|split]].
  - rewrite Hvalid, name_pattern_shape, initials_pattern_shape.
    split; [tauto|]. intros [Hname Hinitials]. repeat split; try assumption.
    + intros Hempty. rewrite Hempty in Hname.
      apply name_shape_head in Hname. destruct Hname as (c & rest & Hnil & _).
      discriminate.
    + intros Hempty. rewrite Hempty in Hinitials.
      destruct Hinitials as (wd & Hwd & [Hnil|Hnil]);
        destruct wd; cbn in *; discriminate.
  - rewrite Hsub. destruct (valid_input name0 initials0); cbn [fst].
    + tauto.
    + split; discriminate.
  - intros Hv. rewrite Hv in Hsub. rewrite Hsub.
    exists (invalid_message name0 initials0). repeat split.
  - intros Hv. rewrite Hv in Hsub. rewrite Hsub. cbn [snd].
    unfold scene_with_record.
    destruct (cmds_group_em (scene w) (_camelCase name0 ++ "_markers")%string)
      as [sc1 grp].
    repeat split.
Qed.

End DialogFacts.

(** ** Words and [setCharacter] *)

Section CharacterFacts.

Context {Scene MObject : Type} {host : Host Scene MObject}.

Lemma split_nonempty (sep : ascii) (s : string) : PyStr.split sep s <> [].
Proof.
  destruct s as [|c s]; cbn; [discriminate|].
  destruct (Ascii.eqb c sep); [discriminate|].
  destruct (PyStr.split sep s); discriminate.
Qed.

(** The pieces of [split], joined by the separator, give the string back. *)
Lemma join_with_split (sep : ascii) (s : string) :
  PyStr.join_with (String sep EmptyString) (PyStr.split sep s) = s.
Proof.
  induction s as [|c s IH]; cbn [PyStr.split]; [reflexivity|].
  pose proof (split_nonempty sep s) as Hne.
  destruct (Ascii.eqb c sep) eqn:Hc.
  - apply Ascii.eqb_eq in Hc. subst c.
    destruct (PyStr.split sep s) as [|w ws]; [contradiction|].
    change (PyStr.join_with (String sep "") ("" :: w :: ws))
      with ("" ++ String sep "" ++ PyStr.join_with (String sep "") (w :: ws))%string.
    rewrite IH. reflexivity.
  - destruct (PyStr.split sep s) as [|w ws]; [contradiction|].
    destruct ws as [|w' ws].
    + cbn in IH |- *. now rewrite IH.
    + change (PyStr.join_with (String sep "") (String c w :: w' :: ws))
        with (String c (w ++ String sep ""
                          ++ PyStr.join_with (String sep "") (w' :: ws)))%string.
      change (PyStr.join_with (String sep "") (w :: w' :: ws))
        with (w ++ String sep "" ++ PyStr.join_with (String sep "") (w' :: ws))%string
        in IH.
      now rewrite IH.
Qed.

(** No piece of [split] contains the separator. *)
Lemma split_no_sep (sep : ascii) (s : string) :
  Forall (fun w => PyStr.contains sep w = false) (PyStr.split sep s).
Proof.
  induction s as [|c s IH]; cbn [PyStr.split].
  - constructor; [reflexivity|constructor].
  - destruct (Ascii.eqb c sep) eqn:Hc.
    + constructor; [reflexivity|exact IH].
    + destruct (PyStr.split sep s) as [|w ws].
      * constructor; [cbn; now rewrite Hc|constructor].
      * inversion IH as [|? ? Hw Hws]; subst.
        constructor; [cbn; now rewrite Hc, Hw|exact Hws].
Qed.

(** C4: [setCharacter] maps its two arguments straight to the class
    attributes.  With [words] the pieces of the name between its spaces:
    raw_name is the name, name is the concatenation of the capitalized
    words, initials is the initials, marker_grp is the object named by that
    concatenation followed by '_markers', output_grp the object named by the
    concatenation, internals_grp the object named by the initials followed by
    '_DO_NOT_TOUCH', and geometry_grp, pose_grp, systems_grp and bind_grp are
    composed from the initials. *)
Theorem setCharacter_direct_mapping (initials0 name0 : string) (cls : Character) :
  let c := setCharacter initials0 name0 cls in
  exists words camel,
    PyStr.join_with " " words = name0
    /\ Forall (fun w => PyStr.contains " " w = false) words
    /\ camel = PyStr.join (map PyStr.capitalize words)
    /\ raw_name c = Some name0
    /\ name c = Some camel
    /\ initials c = Some initials0
    /\ marker_grp c = Some (MayaDagObject_ (camel ++ "_markers")%string)
    /\ output_grp c = Some (MayaDagObject_ camel)
    /\ internals_grp c = Some (MayaDagObject_ (initials0 ++ "_DO_NOT_TOUCH")%string)
    /\ geometry_grp c = Some (compose CENTER "Geometry" GROUP initials0)
    /\ pose_grp c = Some (compose CENTER "Pose" GROUP initials0)
    /\ systems_grp c = Some (compose CENTER "Systems" GROUP initials0)
    /\ bind_grp c = Some (compose CENTER "Bind" GROUP initials0).
Proof.
  intros c. exists (PyStr.split " " name0), (_camelCase name0).
  split; [apply join_with_split|].
  split; [apply split_no_sep|].
  subst c. unfold setCharacter, _camelCase. cbn. repeat split.
Qed.

(** C5, amended: after [setCharacter] the references it assigns (marker,
    output, internals, geometry, pose, systems and bind group, and the
    controls group) are cached, and layout_control and cog_control are what
    they were before the call, None for the class as declared. *)
Theorem setCharacter_caches_assigned_references
        (initials0 name0 : string) (cls : Character) :
  let c := setCharacter initials0 name0 cls in
  assigned_references_cached c
  /\ layout_control c = layout_control cls
  /\ cog_control c = cog_control cls
  /\ layout_control (setCharacter initials0 name0 Character_class) = None
  /\ cog_control (setCharacter initials0 name0 Character_class) = None.
Proof.
  intros c. subst c. unfold assigned_references_cached, setCharacter. cbn.
  repeat split; discriminate.
Qed.

(** C10: [Character.layout_size] dereferences the cached marker group.  For
    the class as declared, and whenever marker_grp is None, the call raises
    and returns no value.  Once [setCharacter] has run, it returns the float
    the layoutSize attribute of the marker group gives. *)
Theorem layout_size_needs_character (w : World Scene) :
  marker_grp Character_class = None
  /\ (marker_grp (character w) = None ->
      exists msg, Character_layout_size w = (Raise (AttributeError msg), w))
  /\ (forall initials0 name0 cls x,
         character w = setCharacter initials0 name0 cls ->
         attr_get_float
           (scene w)
           (attr (MayaDagObject_ (_camelCase name0 ++ "_markers")%string)
                 _LAYOUT_SIZE_ATTR) = Return x ->
         Character_layout_size w = (Return x, w)).
Proof.
  split; [reflexivity|]. split.
  - intros Hnone. unfold Character_layout_size, bind, gets. cbv beta iota.
    rewrite Hnone. eexists. reflexivity.
  - intros initials0 name0 cls x Hset Hfloat.
    unfold Character_layout_size, bind, gets. cbv beta iota.
    rewrite Hset. cbn [marker_grp setCharacter]. rewrite Hfloat. reflexivity.
Qed.

End CharacterFacts.

(** ** The reference host *)

Section RefHostFacts.

Import RefHost.

Example camelCase_sample : _camelCase "my rig  nAME" = "MyRigName".
Proof. reflexivity. Qed.

Example split_path_sample :
  PyStr.split "|" "|assets|props|hand" = [""; "assets"; "props"; "hand"].
Proof. reflexivity. Qed.

(** Breadth first, the later but shallower record is found; with the hand
    selected, the record above it on its path is. *)
Example load_breadth_first :
  name (character (snd (_load (fresh_world two_records)))) = Some "Shallow"
  /\ name (character (snd (_load (fresh_world hand_selected)))) = Some "Deep"
  /\ fst (_load (fresh_world only_cameras)) = Return false.
Proof. repeat split; vm_compute; reflexivity. Qed.

Lemma legal_not_colon (c : ascii) : legal c = true -> c <> ":"%char.
Proof. intros Hc ->. discriminate. Qed.

Lemma drop_colon_other (c : ascii) (n : string) :
  c <> ":"%char -> drop_colon (String c n) = String c n.
Proof.
  intros Hc.
  destruct c as [[] [] [] [] [] [] [] []]; try reflexivity.
  now contradiction Hc.
Qed.

(** A sanitized name does not start with the colon of the root namespace. *)
Lemma drop_colon_sanitize (n : string) : drop_colon (sanitize n) = sanitize n.
Proof.
  destruct n as [|c n]; [reflexivity|].
  unfold sanitize. cbn [PyStr.map_str].
  destruct (legal c) eqn:Hc.
  - apply drop_colon_other. now apply legal_not_colon.
  - reflexivity.
Qed.

(** In the empty scene the group gets the sanitized name it was asked for. *)
Lemma group_in_empty_scene (n : string) :
  ref_group empty_scene n =
  (Scene_ [Node (sanitize n) kTransform [] []] [("|" ++ sanitize n)%string],
   sanitize n).
Proof. reflexivity. Qed.

(** The scene [submit] leaves when it starts from the empty scene. *)
Lemma record_in_empty_scene (group_name name0 initials0 : string) :
  scene_with_record empty_scene group_name name0 initials0 =
  Scene_ [record_node (sanitize group_name) name0 initials0]
         [("|" ++ sanitize group_name)%string].
Proof.
  unfold scene_with_record. cbn [cmds_group_em host].
  rewrite group_in_empty_scene.
  unfold dag_addAttr, host, ref_addAttr. cbn [dag_name world active].
  rewrite drop_colon_sanitize.
  unfold update_forest, update. rewrite String.eqb_refl.
  cbn [app]. rewrite String.eqb_refl. cbn [app]. rewrite String.eqb_refl.
  reflexivity.
Qed.

(** In a scene whose only node is a record, an object carries both
    attributes only when its name resolves to that node, and the attribute
    values are then those of the record. *)
Lemma single_record_carries (sc : Scene) (grp name0 initials0 object : string) :
  world sc = [record_node grp name0 initials0] ->
  carries sc object = String.eqb grp (drop_colon object)
  /\ (carries sc object = true ->
      forall cls, set_from sc object cls = setCharacter initials0 name0 cls).
Proof.
  intros Hworld.
  assert (Hres : resolve sc object =
                 if String.eqb grp (drop_colon object)
                 then Some (record_node grp name0 initials0) else None).
  { unfold resolve. rewrite Hworld. cbn.
    destruct (String.eqb grp (drop_colon object)); reflexivity. }
  assert (Hcar : carries sc object = String.eqb grp (drop_colon object)).
  { unfold carries, attr_exists, host, ref_attr_exists, lookup. cbn [attr attr_of dag_name attr_name].
    rewrite Hres. destruct (String.eqb grp (drop_colon object)); reflexivity. }
  split; [exact Hcar|].
  rewrite Hcar. intros Heq cls.
  unfold set_from, attr_get_str, host, ref_get_str, lookup.
  cbn [attr attr_of dag_name attr_name].
  rewrite Hres, Heq. reflexivity.
Qed.

Lemma setCharacter_twice (initials0 name0 : string) (cls : Character) :
  setCharacter initials0 name0 (setCharacter initials0 name0 cls)
  = setCharacter initials0 name0 cls.
Proof. reflexivity. Qed.

(** C8: the record a successful submission creates in the empty scene is
    found by the scene search.  Whatever the selection query answers and
    whatever the class held before, [_load] on a scene with that record as
    its only node returns True and leaves the class attributes
    [setCharacter] gives for the same initials and name; run right after the
    submission it leaves the class attributes exactly as the submission set
    them. *)
Theorem created_record_is_found (name0 initials0 : string) (cls0 : Character) :
  valid_input name0 initials0 = true ->
  let created := snd (submit (filled_in empty_scene cls0 name0 initials0)) in
  fst (submit (filled_in empty_scene cls0 name0 initials0)) = Return tt
  /\ character created = setCharacter initials0 name0 cls0
  /\ (forall w1 : World Scene,
         world (scene w1) = world (scene created) ->
         fst (_load w1) = Return true
         /\ character (snd (_load w1)) = setCharacter initials0 name0 (character w1))
  /\ fst (_load created) = Return true
  /\ character (snd (_load created)) = character created.
Proof.
  intros Hvalid created.
  pose proof (submit_eq (filled_in empty_scene cls0 name0 initials0)) as Hsub.
  cbn [name_field initials_field filled_in scene character log] in Hsub.
  rewrite Hvalid, record_in_empty_scene in Hsub.
  set (grp := sanitize (_camelCase name0 ++ "_markers")%string) in *.
  assert (Hcreated : created =
            World_ (Scene_ [record_node grp name0 initials0] [("|" ++ grp)%string])
                   (setCharacter initials0 name0 cls0)
                   name0 initials0 (Some "confirm") []).
  { subst created. now rewrite Hsub. }
  assert (Hfound : forall w1 : World Scene,
             world (scene w1) = [record_node grp name0 initials0] ->
             fst (_load w1) = Return true
             /\ character (snd (_load w1))
                = setCharacter initials0 name0 (character w1)).
  { intros w1 Hworld. pose proof (_load_find w1) as Hload.
    destruct (find (carries (scene w1)) (candidates (scene w1))) as [o|] eqn:Hfind.
    - destruct Hload as [Hr Hc]. split; [exact Hr|].
      apply find_some in Hfind. destruct Hfind as [_ Hcar].
      rewrite Hc.
      now apply (proj2 (single_record_carries (scene w1) o Hworld)).
    - exfalso.
      assert (Hin : In (":" ++ grp)%string (candidates (scene w1))).
      { unfold candidates. apply in_or_app. right.
        unfold dag_candidates, MItDag, host, iterate. rewrite Hworld.
        cbn. now left. }
      pose proof (find_none _ _ Hfind _ Hin) as Hno.
      rewrite (proj1 (single_record_carries (scene w1) (":" ++ grp) Hworld)) in Hno.
      cbn [drop_colon append] in Hno. now rewrite String.eqb_refl in Hno. }
  split; [now rewrite Hsub|]. split; [now rewrite Hcreated|].
  split; [intros w1 Hw1; apply Hfound; now rewrite Hw1, Hcreated|].
  destruct (Hfound created) as [Hr Hc]; [now rewrite Hcreated|].
  split; [exact Hr|]. rewrite Hc, Hcreated. reflexivity.
Qed.

End RefHostFacts.

(** ** The statements at work on the reference host *)

Section Witnesses.

Import RefHost.

Example name_pattern_samples :
  Re.re_match Re.NAME_RE "Foo Bar" = true
  /\ Re.re_match Re.NAME_RE "my rig2 " = true
  /\ Re.re_match Re.NAME_RE "Foo  Bar" = false
  /\ Re.re_match Re.NAME_RE "2Foo" = false
  /\ Re.re_match Re.NAME_RE "Foo_Bar" = false
  /\ Re.re_match Re.NAME_RE "" = false
  /\ Re.re_match Re.INITIALS_RE "Fb2" = true
  /\ Re.re_match Re.INITIALS_RE "F b" = false.
Proof. repeat split; vm_compute; reflexivity. Qed.

(** In the empty scene the dialog is shown once, and a filled-in form
    creates the record. *)
Lemma initialize_prompts_witness :
  dialogs_shown
    (snd (Character_initialize [TypeName "my rig"; TypeInitials "mr"; PressCreate]
                               (fresh_world empty_scene)))
  = S (dialogs_shown (fresh_world empty_scene)).
Proof.
  pose proof (initialize_prompts_only_without_marker
                [TypeName "my rig"; TypeInitials "mr"; PressCreate]
                (fresh_world empty_scene)) as H.
  cbv zeta in H. destruct H as [_ [H _]]. apply H. vm_compute. reflexivity.
Defined.

(** With two records in the scene, [_load] returns True. *)
Lemma load_true_witness : fst (_load (fresh_world two_records)) = Return true.
Proof.
  destruct (load_true_iff_candidate_carries (fresh_world two_records))
    as [_ [[_ H] _]].
  apply H. exists ":Shallow_markers". split; vm_compute; [tauto|reflexivity].
Defined.

(** With the hand selected, the third component of its path decides. *)
Lemma load_search_order_witness :
  _load (fresh_world hand_selected)
  = (Return true, found_at "Deep_markers" (fresh_world hand_selected)).
Proof.
  destruct (load_search_order (fresh_world hand_selected)) as [H _].
  apply (H ["assets"; "props"] "Deep_markers" ["hand"]).
  - reflexivity.
  - intros o [<-|[<-|[]]]; reflexivity.
  - reflexivity.
Defined.

(** With only cameras in the scene the class stays as declared. *)
Lemma load_false_witness :
  character (snd (_load (fresh_world only_cameras))) = Character_class
  /\ scene (snd (_load (fresh_world only_cameras))) = only_cameras.
Proof.
  apply (load_false_keeps_character (fresh_world only_cameras)).
  vm_compute. reflexivity.
Defined.

(** Cancel in the empty scene raises. *)
Lemma initialize_cancelled_witness :
  exists msg,
    fst (Character_initialize [TypeName "my rig"; PressCancel]
                              (fresh_world empty_scene))
    = Raise (CancelledError msg).
Proof.
  destruct (initialize_raises_iff_dismissed [TypeName "my rig"; PressCancel]
                                            (fresh_world empty_scene))
    as [_ [_ [_ H]]].
  apply H. split; vm_compute; reflexivity.
Defined.

(** A filled-in form passes the test and [submit] returns. *)
Lemma submit_valid_witness :
  fst (submit (filled_in empty_scene Character_class "my rig" "mr")) = Return tt.
Proof.
  destruct (submit_creates_record_iff_valid
              (filled_in empty_scene Character_class "my rig" "mr"))
    as [_ [_ [[H _] _]]].
  apply H. vm_compute. reflexivity.
Defined.

(** The record of "my rig" is found again. *)
Lemma created_record_witness :
  valid_input "my rig" "mr" = true
  /\ fst (_load (snd (submit (filled_in empty_scene Character_class "my rig" "mr"))))
     = Return true
  /\ character
       (snd (_load (snd (submit (filled_in empty_scene Character_class
                                           "my rig" "mr")))))
     = character (snd (submit (filled_in empty_scene Character_class "my rig" "mr"))).
Proof.
  assert (Hvalid : valid_input "my rig" "mr" = true) by (vm_compute; reflexivity).
  split; [exact Hvalid|].
  destruct (created_record_is_found "my rig" "mr" Character_class Hvalid)
    as [_ [_ [_ H]]].
  exact H.
Defined.

(** After the record of "my rig" is created the layout size is 50. *)
Lemma layout_size_witness :
  Character_layout_size
    (snd (submit (filled_in empty_scene Character_class "my rig" "mr")))
  = (Return (inject_Z 50),
     snd (submit (filled_in empty_scene Character_class "my rig" "mr"))).
Proof.
  destruct (layout_size_needs_character
              (snd (submit (filled_in empty_scene Character_class "my rig" "mr"))))
    as [_ [_ H]].
  apply (H "mr" "my rig" Character_class); vm_compute; reflexivity.
Defined.

(** C5 as stated fails: after a first [setCharacter] the layout control is
    still None. *)
Lemma setCharacter_leaves_controls_uncached :
  ~ all_references_cached (setCharacter "mr" "my rig" Character_class).
Proof.
  unfold all_references_cached.
  intros (_ & _ & _ & _ & _ & _ & _ & Hlayout & _).
  apply Hlayout. reflexivity.
Qed.

End Witnesses.

(** ** More on [_camelCase] *)

Section CamelFacts.

Lemma lower_lower (c : ascii) : PyStr.lower (PyStr.lower c) = PyStr.lower c.
Proof. destruct c as [[] [] [] [] [] [] [] []]; reflexivity. Qed.

Lemma lower_upper (c : ascii) : PyStr.lower (PyStr.upper c) = PyStr.lower c.
Proof. destruct c as [[] [] [] [] [] [] [] []]; reflexivity. Qed.



Lemma lower_is_space (c : ascii) :
  Ascii.eqb (PyStr.lower c) " " = Ascii.eqb c " ".
Proof. destruct c as [[] [] [] [] [] [] [] []]; reflexivity. Qed.


Lemma upper_of_letter (c : ascii) :
  Re.letter c = true -> PyStr.is_upper (PyStr.upper c) = true.
Proof. destruct c as [[] [] [] [] [] [] [] []]; intros H; try reflexivity; discriminate. Qed.

Lemma letter_not_space (c : ascii) : Re.letter c = true -> Ascii.eqb c " " = false.
Proof. destruct c as [[] [] [] [] [] [] [] []]; intros H; try reflexivity; discriminate. Qed.

Lemma alnum_upper (c : ascii) : Re.alnum c = true -> Re.alnum (PyStr.upper c) = true.
Proof. destruct c as [[] [] [] [] [] [] [] []]; intros H; try reflexivity; discriminate. Qed.

Lemma alnum_lower (c : ascii) : Re.alnum c = true -> Re.alnum (PyStr.lower c) = true.
Proof. destruct c as [[] [] [] [] [] [] [] []]; intros H; try reflexivity; discriminate. Qed.

Lemma map_str_append (f : ascii -> ascii) (a b : string) :
  PyStr.map_str f (a ++ b) = (PyStr.map_str f a ++ PyStr.map_str f b)%string.
Proof. induction a as [|c a IH]; cbn; [reflexivity|now rewrite IH]. Qed.

Lemma map_str_join (f : ascii -> ascii) (ws : list string) :
  PyStr.map_str f (PyStr.join ws) = PyStr.join (map (PyStr.map_str f) ws).
Proof.
  unfold PyStr.join. induction ws as [|w ws IH]; cbn; [reflexivity|].
  now rewrite map_str_append, IH.
Qed.

Lemma map_str_twice (f g h : ascii -> ascii) (s : string) :
  (forall c, f (g c) = h c) ->
  PyStr.map_str f (PyStr.map_str g s) = PyStr.map_str h s.
Proof. intros H. induction s as [|c s IH]; cbn; [reflexivity|now rewrite H, IH]. Qed.


(** The pieces of [split], concatenated, are the string without the
    separator. *)
Lemma join_split_remove (sep : ascii) (s : string) :
  PyStr.join (PyStr.split sep s) = PyStr.remove sep s.
Proof.
  induction s as [|c s IH]; cbn [PyStr.split PyStr.remove]; [reflexivity|].
  destruct (Ascii.eqb c sep).
  - cbn. exact IH.
  - destruct (PyStr.split sep s) as [|w ws]; cbn in IH |- *.
    + now rewrite <- IH.
    + now rewrite <- IH.
Qed.



Lemma lower_capitalize (w : string) :
  PyStr.map_str PyStr.lower (PyStr.capitalize w) = PyStr.map_str PyStr.lower w.
Proof.
  destruct w as [|c w]; cbn; [reflexivity|].
  now rewrite lower_upper, (@map_str_twice PyStr.lower PyStr.lower PyStr.lower w lower_lower).
Qed.

Lemma map_map_ext {A B} (f g : A -> B) (l : list A) :
  (forall x, f x = g x) -> map f l = map g l.
Proof. intros H. induction l as [|x l IH]; cbn; [reflexivity|now rewrite H, IH]. Qed.

(** Up to the case of its letters, the camel-cased name is the name without
    its spaces. *)
Lemma lower_camelCase (s : string) :
  PyStr.map_str PyStr.lower (_camelCase s)
  = PyStr.map_str PyStr.lower (PyStr.remove " " s).
Proof.
  unfold _camelCase. rewrite map_str_join, map_map.
  rewrite (@map_map_ext _ _ _ (PyStr.map_str PyStr.lower) _ lower_capitalize).
  now rewrite <- map_str_join, join_split_remove.
Qed.

Lemma contains_lowered (s : string) :
  PyStr.contains " " (PyStr.map_str PyStr.lower s) = PyStr.contains " " s.
Proof. induction s as [|c s IH]; cbn; [reflexivity|now rewrite lower_is_space, IH]. Qed.

Lemma contains_remove (c : ascii) (s : string) :
  PyStr.contains c (PyStr.remove c s) = false.
Proof.
  induction s as [|c' s IH]; cbn; [reflexivity|].
  destruct (Ascii.eqb c' c) eqn:Hc; [exact IH|]. cbn. now rewrite Hc, IH.
Qed.



End CamelFacts.

(** ** What [_camelCase] does to a name *)

Section CamelProperties.

(** X1: the camel-cased name contains no space. *)
Theorem camelCase_has_no_space (s : string) :
  PyStr.contains " " (_camelCase s) = false.
Proof.
  rewrite <- contains_lowered, lower_camelCase, contains_lowered.
  apply contains_remove.
Qed.



(** X4: a name the name pattern accepts gets a camel-cased name that starts
    with an upper-case letter. *)
Theorem valid_name_camel_starts_upper (n : string) :
  Re.re_match Re.NAME_RE n = true ->
  exists c rest, _camelCase n = String c rest /\ PyStr.is_upper c = true.
Proof.
  intros Hmatch. apply name_pattern_shape, name_shape_head in Hmatch.
  destruct Hmatch as (c & rest & Hn & Hc).
  destruct n as [|c0 n]; [discriminate|]. cbn in Hn. injection Hn as -> _.
  unfold _camelCase. cbn [PyStr.split].
  rewrite (letter_not_space _ Hc).
  destruct (PyStr.split " " n) as [|w ws];
    (eexists; eexists; split; [reflexivity|now apply upper_of_letter]).
Qed.

End CamelProperties.

(** ** How the dialog ends, and what [initialize] leaves *)

Section DialogOutcomes.

Context {Scene MObject : Type} {host : Host Scene MObject}.

Lemma dialog_outcome_same (w0 w : World Scene) (result : string) (w' : World Scene) :
  scene w0 = scene w -> character w0 = character w ->
  dialog_outcome w0 result w' -> dialog_outcome w result w'.
Proof.
  unfold dialog_outcome. intros Hs Hc. rewrite Hs, Hc. tauto.
Qed.

(** The modal loop of the creation form, entered with no result set. *)
Lemma modal_loop_outcome (user : list UserAction) :
  forall w : World Scene,
    dismissed w = None ->
    exists result w',
      modal_loop (Form_ (cmds_layoutDialog_dismiss "dismiss") submit) user w
      = (Return result, w')
      /\ dialog_outcome w result w'.
Proof.
  induction user as [|a rest IH]; intros w Hnone.
  - exists "dismiss", w. split; [reflexivity|]. left. now repeat split.
  - destruct a; cbn [modal_loop].
    + unfold bind, modify.
      destruct (IH (with_name_field tx w) Hnone) as (r & w' & Heq & Hout).
      exists r, w'. split; [exact Heq|].
      eapply dialog_outcome_same; [| |exact Hout]; reflexivity.
    + unfold bind, modify.
      destruct (IH (with_initials_field tx w) Hnone) as (r & w' & Heq & Hout).
      exists r, w'. split; [exact Heq|].
      eapply dialog_outcome_same; [| |exact Hout]; reflexivity.
    + unfold bind, run_command, gets. cbn [b2]. rewrite submit_eq.
      destruct (valid_input (name_field w) (initials_field w)) eqn:Hvalid.
      * cbn [dismissed]. eexists. eexists. split; [reflexivity|].
        right. cbn [name_field initials_field character scene].
        now repeat split.
      * cbn [dismissed with_event]. rewrite Hnone.
        match goal with
        | |- context [modal_loop _ rest ?w1] =>
            destruct (IH w1 Hnone) as (r & w' & Heq & Hout)
        end.
        exists r, w'. split; [exact Heq|].
        eapply dialog_outcome_same; [| |exact Hout]; reflexivity.
    + unfold bind, run_command, gets. cbn [b1].
      unfold cmds_layoutDialog_dismiss, modify. cbn [dismissed with_dismissed].
      eexists. eexists. split; [reflexivity|]. left. now repeat split.
    + exists "dismiss", w. split; [reflexivity|]. left. now repeat split.
Qed.

(** The dialog of the module, from its opening. *)
Lemma layoutDialog_outcome (user : list UserAction) (w : World Scene) :
  exists result w',
    cmds_layoutDialog _create_ui user w = (Return result, w')
    /\ dialog_outcome w result w'.
Proof.
  unfold cmds_layoutDialog, _create_ui, bind, modify, ret. cbn.
  match goal with
  | |- context [modal_loop _ user ?w0] =>
      destruct (modal_loop_outcome user w0 eq_refl) as (r & w' & Heq & Hout)
  end.
  exists r, w'. split; [exact Heq|].
  eapply dialog_outcome_same; [| |exact Hout]; reflexivity.
Qed.


End DialogOutcomes.

Section InitializeProperties.

Context {Scene MObject : Type} {host : Host Scene MObject}.

Lemma set_from_twice (sc : Scene) (object : string) (cls : Character) :
  set_from sc object (set_from sc object cls) = set_from sc object cls.
Proof. reflexivity. Qed.

(** X5: [_load] is idempotent and touches nothing but the class.  A second
    run right after the first gives the same answer and the same class
    attributes, and no run changes the scene, the text fields or the dialog
    result, or shows a dialog. *)
Theorem load_is_idempotent (w : World Scene) :
  let w1 := snd (_load w) in
  fst (_load w1) = fst (_load w)
  /\ character (snd (_load w1)) = character w1
  /\ scene w1 = scene w
  /\ name_field w1 = name_field w
  /\ initials_field w1 = initials_field w
  /\ dismissed w1 = dismissed w
  /\ dialogs_shown w1 = dialogs_shown w.
Proof.
  intros w1.
  destruct (_load_returns w) as (found & Heq & Hscene & Hshown).
  fold w1 in Heq, Hscene, Hshown.
  pose proof (_load_find w) as H0. pose proof (_load_find w1) as H1.
  fold w1 in H0. rewrite Hscene in H1.
  assert (Hframe : name_field w1 = name_field w
                   /\ initials_field w1 = initials_field w
                   /\ dismissed w1 = dismissed w).
  { subst w1. rewrite _load_eq.
    destruct (find _ (path_candidates _)); [now repeat split|].
    destruct (find _ (dag_candidates _)); now repeat split. }
  destruct (find (carries (scene w)) (candidates (scene w))) as [o|].
  - destruct H0 as [Hr0 Hc0]. destruct H1 as [Hr1 Hc1].
    split; [congruence|]. split; [|tauto].
    rewrite Hc1, Hc0. apply set_from_twice.
  - destruct H0 as [Hr0 Hc0]. destruct H1 as [Hr1 Hc1].
    split; [congruence|]. split; [exact Hc1|tauto].
Qed.

(** X7: a cancelled [initialize] has no effect beyond that of [_load].  The
    only exception it raises is CancelledError, and when it does the scene is
    the one it started in and the class attributes are those [_load] left. *)
Theorem initialize_cancel_is_clean
        (user : list UserAction) (w : World Scene) (e : PyExc) :
  fst (Character_initialize user w) = Raise e ->
  e = CancelledError "Character creation cancelled."
  /\ scene (snd (Character_initialize user w)) = scene w
  /\ character (snd (Character_initialize user w)) = character (snd (_load w)).
Proof.
  rewrite initialize_eq. cbv zeta.
  destruct (_load_returns w) as (found & _ & Hscene & _).
  destruct (cached_and_exists _ _); [discriminate|].
  destruct (layoutDialog_outcome user (snd (_load w)))
    as (result & w2 & Heq & Hout).
  rewrite Heq.
  destruct (String.eqb result "dismiss") eqn:Hres; cbn [fst snd];
    [|discriminate].
  intros He. injection He as <-. split; [reflexivity|].
  destruct Hout as [(_ & Hs & Hc)|(Hconfirm & _)].
  - split; [congruence|exact Hc].
  - subst result. discriminate.
Qed.

Lemma layout_size_of_cached (w : World Scene) (grp : MayaDagObject) :
  marker_grp (character w) = Some grp ->
  fst (Character_layout_size w)
  = attr_get_float (scene w) (attr grp _LAYOUT_SIZE_ATTR).
Proof.
  intros Hgrp. unfold Character_layout_size, bind, gets. cbv beta iota.
  rewrite Hgrp. destruct (attr_get_float _ _); reflexivity.
Qed.

(** X8: when [initialize] returns normally a marker group is cached, so a
    following [layout_size] does not fail on None: it gives what the
    layoutSize attribute of that group gives. *)
Theorem initialize_success_caches_marker
        (user : list UserAction) (w : World Scene) :
  fst (Character_initialize user w) = Return tt ->
  let w' := snd (Character_initialize user w) in
  exists grp,
    marker_grp (character w') = Some grp
    /\ fst (Character_layout_size w')
       = attr_get_float (scene w') (attr grp _LAYOUT_SIZE_ATTR).
Proof.
  rewrite initialize_eq. cbv zeta.
  destruct (cached_and_exists (scene (snd (_load w)))
                              (marker_grp (character (snd (_load w))))) eqn:Hcached.
  - intros _. cbn [snd]. unfold cached_and_exists in Hcached.
    destruct (marker_grp (character (snd (_load w)))) as [grp|] eqn:Hgrp;
      [|discriminate].
    exists grp. split; [reflexivity|now apply layout_size_of_cached].
  - destruct (layoutDialog_outcome user (snd (_load w)))
      as (result & w2 & Heq & Hout).
    rewrite Heq.
    destruct Hout as [(-> & _)|(-> & _ & Hc & _)].
    + change (String.eqb "dismiss" "dismiss") with true. discriminate.
    + change (String.eqb "confirm" "dismiss") with false. cbn [fst snd].
      intros _. eexists. split; [rewrite Hc; reflexivity|].
      apply layout_size_of_cached. rewrite Hc. reflexivity.
Qed.

(** X9: a cached character survives a search that finds nothing.  When
    [_load] returns False and the marker group cached before the call still
    exists, [initialize] returns without a dialog and the class attributes
    are those from before the call. *)
Theorem initialize_keeps_cached_character
        (user : list UserAction) (w : World Scene) :
  fst (_load w) = Return false ->
  cached_and_exists (scene w) (marker_grp (character w)) = true ->
  fst (Character_initialize user w) = Return tt
  /\ character (snd (Character_initialize user w)) = character w
  /\ scene (snd (Character_initialize user w)) = scene w
  /\ dialogs_shown (snd (Character_initialize user w)) = dialogs_shown w.
Proof.
  intros Hfalse Hcached.
  destruct (_load_returns w) as (found & _ & Hscene & Hshown).
  pose proof (_load_find w) as Hfind.
  assert (Hchar : character (snd (_load w)) = character w).
  { destruct (find (carries (scene w)) (candidates (scene w))).
    - destruct Hfind as [Htrue _]. congruence.
    - now destruct Hfind. }
  rewrite initialize_eq. cbv zeta. rewrite Hscene, Hchar, Hcached.
  cbn [fst snd]. now repeat split.
Qed.

End InitializeProperties.

(** ** Creation and what follows it, on the reference host *)

Section CreatedRecord.

Import RefHost.

Lemma forall_str_append (p : ascii -> bool) (a b : string) :
  PyStr.forall_str p (a ++ b) = PyStr.forall_str p a && PyStr.forall_str p b.
Proof.
  induction a as [|c a IH]; cbn; [reflexivity|]. now rewrite IH, andb_assoc.
Qed.

Lemma forall_str_join (p : ascii -> bool) (ws : list string) :
  Forall (fun w => PyStr.forall_str p w = true) ws ->
  PyStr.forall_str p (PyStr.join ws) = true.
Proof.
  unfold PyStr.join. induction 1 as [|w ws Hw _ IH]; cbn; [reflexivity|].
  now rewrite forall_str_append, Hw, IH.
Qed.

Lemma forall_str_map (p : ascii -> bool) (f : ascii -> ascii) (s : string) :
  (forall c, p c = true -> p (f c) = true) ->
  PyStr.forall_str p s = true -> PyStr.forall_str p (PyStr.map_str f s) = true.
Proof.
  intros Hf. induction s as [|c s IH]; cbn; [reflexivity|].
  intros H. apply andb_true_iff in H. destruct H as [Hc Hs].
  now rewrite (Hf c Hc), IH.
Qed.

(** The words of a plain name are made of letters and digits. *)
Lemma plain_name_words (n : string) :
  plain_name n = true ->
  Forall (fun w => PyStr.forall_str Re.alnum w = true) (PyStr.split " " n).
Proof.
  unfold plain_name. induction n as [|c n IH]; cbn [PyStr.split PyStr.forall_str].
  - intros _. constructor; [reflexivity|constructor].
  - intros H. apply andb_true_iff in H. destruct H as [Hc Hn].
    specialize (IH Hn). destruct (Ascii.eqb c " ") eqn:Hsp.
    + constructor; [reflexivity|exact IH].
    + rewrite orb_false_r in Hc.
      destruct (PyStr.split " " n) as [|w ws].
      * constructor; [cbn; now rewrite Hc|constructor].
      * inversion IH as [|? ? Hw Hws]; subst.
        constructor; [cbn; now rewrite Hc, Hw|exact Hws].
Qed.

Lemma capitalize_alnum (w : string) :
  PyStr.forall_str Re.alnum w = true ->
  PyStr.forall_str Re.alnum (PyStr.capitalize w) = true.
Proof.
  destruct w as [|c w]; cbn; [reflexivity|].
  intros H. apply andb_true_iff in H. destruct H as [Hc Hw].
  rewrite (alnum_upper _ Hc). cbn.
  now apply forall_str_map; [apply alnum_lower|].
Qed.

(** The camel-cased form of a plain name is made of letters and digits. *)
Lemma camelCase_alnum (n : string) :
  plain_name n = true -> PyStr.forall_str Re.alnum (_camelCase n) = true.
Proof.
  intros Hplain. unfold _camelCase. apply forall_str_join.
  apply Forall_map. eapply Forall_impl; [|now apply plain_name_words].
  intros w Hw. now apply capitalize_alnum.
Qed.

Lemma sanitize_legal (n : string) :
  PyStr.forall_str legal n = true -> sanitize n = n.
Proof.
  unfold sanitize. induction n as [|c n IH]; cbn; [reflexivity|].
  intros H. apply andb_true_iff in H. destruct H as [Hc Hn].
  now rewrite Hc, IH.
Qed.

Lemma forall_str_weaken (p q : ascii -> bool) (s : string) :
  (forall c, p c = true -> q c = true) ->
  PyStr.forall_str p s = true -> PyStr.forall_str q s = true.
Proof.
  intros Hpq. induction s as [|c s IH]; cbn; [reflexivity|].
  intros H. apply andb_true_iff in H. destruct H as [Hc Hs].
  now rewrite (Hpq c Hc), IH.
Qed.

(** For a plain name the host grants the group name [submit] asks for. *)
Lemma marker_name_granted (n : string) :
  plain_name n = true ->
  sanitize (_camelCase n ++ "_markers") = (_camelCase n ++ "_markers")%string.
Proof.
  intros Hplain. apply sanitize_legal. rewrite forall_str_append.
  apply andb_true_iff. split; [|reflexivity].
  eapply forall_str_weaken; [|now apply camelCase_alnum].
  intros c Hc. unfold legal. now rewrite Hc.
Qed.

(** The world a successful [submit] leaves when it starts in the empty
    scene. *)
Lemma created_world (name0 initials0 : string) (cls0 : Character) :
  valid_input name0 initials0 = true ->
  snd (submit (filled_in empty_scene cls0 name0 initials0))
  = World_ (Scene_ [record_node (sanitize (_camelCase name0 ++ "_markers"))
                                name0 initials0]
                   [("|" ++ sanitize (_camelCase name0 ++ "_markers"))%string])
           (setCharacter initials0 name0 cls0)
           name0 initials0 (Some "confirm") [].
Proof.
  intros Hvalid.
  pose proof (submit_eq (filled_in empty_scene cls0 name0 initials0)) as Hsub.
  cbn [name_field initials_field filled_in scene character log] in Hsub.
  rewrite Hvalid, record_in_empty_scene in Hsub. now rewrite Hsub.
Qed.

(** [_load] in a scene whose only node is a record. *)
Lemma load_single_record (grp name0 initials0 : string) (w1 : World Scene) :
  world (scene w1) = [record_node grp name0 initials0] ->
  fst (_load w1) = Return true
  /\ character (snd (_load w1)) = setCharacter initials0 name0 (character w1).
Proof.
  intros Hworld. pose proof (_load_find w1) as Hload.
  destruct (find (carries (scene w1)) (candidates (scene w1))) as [o|] eqn:Hfind.
  - destruct Hload as [Hr Hc]. split; [exact Hr|].
    apply find_some in Hfind. destruct Hfind as [_ Hcar].
    rewrite Hc. now apply (proj2 (single_record_carries (scene w1) o Hworld)).
  - exfalso.
    assert (Hin : In (":" ++ grp)%string (candidates (scene w1))).
    { unfold candidates. apply in_or_app. right.
      unfold dag_candidates, MItDag, host, iterate. rewrite Hworld.
      cbn. now left. }
    pose proof (find_none _ _ Hfind _ Hin) as Hno.
    rewrite (proj1 (single_record_carries (scene w1) (":" ++ grp) Hworld)) in Hno.
    cbn [drop_colon append] in Hno. now rewrite String.eqb_refl in Hno.
Qed.

(** X10: once a character with a plain name has been created in the empty
    scene, [initialize] does not ask again: it returns without a dialog and
    the class attributes stay as the creation set them. *)
Theorem reinitialize_is_silent
        (name0 initials0 : string) (cls0 : Character) (user : list UserAction) :
  valid_input name0 initials0 = true ->
  plain_name name0 = true ->
  let created := snd (submit (filled_in empty_scene cls0 name0 initials0)) in
  fst (Character_initialize user created) = Return tt
  /\ character (snd (Character_initialize user created)) = character created
  /\ scene (snd (Character_initialize user created)) = scene created
  /\ dialogs_shown (snd (Character_initialize user created))
     = dialogs_shown created.
Proof.
  intros Hvalid Hplain created.
  pose proof (@created_world name0 initials0 cls0 Hvalid) as Hcreated. fold created in Hcreated.
  rewrite (marker_name_granted _ Hplain) in Hcreated.
  set (grp := (_camelCase name0 ++ "_markers")%string) in *.
  destruct (@load_single_record grp name0 initials0 created) as [_ Hchar];
    [now rewrite Hcreated|].
  destruct (_load_returns created) as (found & _ & Hscene & Hshown).
  assert (Hsame : character (snd (_load created)) = character created).
  { rewrite Hchar, Hcreated. reflexivity. }
  assert (Hcached : cached_and_exists (scene (snd (_load created)))
                      (marker_grp (character (snd (_load created)))) = true).
  { rewrite Hscene, Hsame, Hcreated.
    cbn [character marker_grp setCharacter scene cached_and_exists].
    fold grp. unfold dag_exists, host, ref_exists, resolve.
    cbn [dag_name world flat_map depth_first record_node app find node_name].
    assert (Hdrop : drop_colon grp = grp).
    { subst grp. rewrite <- (marker_name_granted _ Hplain).
      apply drop_colon_sanitize. }
    now rewrite Hdrop, String.eqb_refl. }
  rewrite initialize_eq. cbv zeta. rewrite Hcached. cbn [fst snd].
  now repeat split.
Qed.

(** X11: the layout size of a character with a plain name, read right after
    its creation in the empty scene, is the 50 that [submit] stored. *)
Theorem created_layout_size_is_50
        (name0 initials0 : string) (cls0 : Character) :
  valid_input name0 initials0 = true ->
  plain_name name0 = true ->
  let created := snd (submit (filled_in empty_scene cls0 name0 initials0)) in
  Character_layout_size created = (Return (inject_Z 50), created).
Proof.
  intros Hvalid Hplain created.
  pose proof (@created_world name0 initials0 cls0 Hvalid) as Hcreated. fold created in Hcreated.
  rewrite (marker_name_granted _ Hplain) in Hcreated.
  set (grp := (_camelCase name0 ++ "_markers")%string) in *.
  assert (Hdrop : drop_colon grp = grp).
  { subst grp. rewrite <- (marker_name_granted _ Hplain).
    apply drop_colon_sanitize. }
  clearbody created. subst created.
  unfold Character_layout_size, bind, gets. cbv beta iota.
  cbn [character marker_grp setCharacter scene]. fold grp.
  unfold attr_get_float, host, ref_get_float, lookup, resolve.
  cbn [attr attr_of attr_name dag_name world flat_map depth_first record_node
       app find node_name].
  rewrite Hdrop, String.eqb_refl. reflexivity.
Qed.

End CreatedRecord.

(** ** The further statements at work on the reference host *)

Section MoreWitnesses.

Import RefHost.

Lemma camel_starts_upper_witness :
  exists c rest, _camelCase "my rig" = String c rest /\ PyStr.is_upper c = true.
Proof.
  apply (valid_name_camel_starts_upper "my rig"). vm_compute. reflexivity.
Defined.

Lemma cancel_is_clean_witness :
  CancelledError "Character creation cancelled."
  = CancelledError "Character creation cancelled."
  /\ scene (snd (Character_initialize [TypeName "my rig"; PressCancel]
                                      (fresh_world only_cameras)))
     = only_cameras
  /\ character (snd (Character_initialize [TypeName "my rig"; PressCancel]
                                          (fresh_world only_cameras)))
     = character (snd (_load (fresh_world only_cameras))).
Proof.
  apply (initialize_cancel_is_clean [TypeName "my rig"; PressCancel]
                                    (fresh_world only_cameras)
                                    (e := CancelledError "Character creation cancelled.")).
  vm_compute. reflexivity.
Defined.

Lemma success_caches_marker_witness :
  exists grp,
    marker_grp
      (character
         (snd (Character_initialize
                 [TypeName "my rig"; TypeInitials "mr"; PressCreate]
                 (fresh_world empty_scene)))) = Some grp
    /\ fst (Character_layout_size
              (snd (Character_initialize
                      [TypeName "my rig"; TypeInitials "mr"; PressCreate]
                      (fresh_world empty_scene))))
       = attr_get_float
           (scene (snd (Character_initialize
                          [TypeName "my rig"; TypeInitials "mr"; PressCreate]
                          (fresh_world empty_scene))))
           (attr grp _LAYOUT_SIZE_ATTR).
Proof.
  apply (initialize_success_caches_marker
           [TypeName "my rig"; TypeInitials "mr"; PressCreate]
           (fresh_world empty_scene)).
  vm_compute. reflexivity.
Defined.

(** A marker node stripped of its attributes, with its character still
    cached. *)
Lemma keeps_cached_character_witness :
  fst (Character_initialize
         [PressCancel]
         (World_ (Scene_ [Node "Old_markers" kTransform [] []] [])
                 (setCharacter "ol" "old" Character_class) "" "" None []))
  = Return tt.
Proof.
  apply (initialize_keeps_cached_character
           [PressCancel]
           (World_ (Scene_ [Node "Old_markers" kTransform [] []] [])
                   (setCharacter "ol" "old" Character_class) "" "" None []));
    vm_compute; reflexivity.
Defined.

Lemma reinitialize_witness :
  fst (Character_initialize
         [PressCancel]
         (snd (submit (filled_in empty_scene Character_class "my rig" "mr"))))
  = Return tt.
Proof.
  apply (@reinitialize_is_silent "my rig" "mr" Character_class [PressCancel]);
    vm_compute; reflexivity.
Defined.

Lemma created_layout_size_witness :
  Character_layout_size
    (snd (submit (filled_in empty_scene Character_class "Hero Two2" "h2")))
  = (Return (inject_Z 50),
     snd (submit (filled_in empty_scene Character_class "Hero Two2" "h2"))).
Proof.
  apply (@created_layout_size_is_50 "Hero Two2" "h2" Character_class);
    vm_compute; reflexivity.
Defined.

End MoreWitnesses.
